(** * jcip-annotations.py: the import rewriter of httpcomponents-client

    A shallow embedding of [src/jcip-annotations.py]: the three compiled
    regular expressions, [str.replace], the per-file rewriter
    [process_source] with its [try]/[finally]/[except] structure, and the
    directory walk [process_dir], over a filesystem with fault injection. *)

From Stdlib Require Import Ascii String.
From stdpp Require Import gmap strings list fin_maps.

Local Open Scope string_scope.
Local Open Scope list_scope.
Local Open Scope nat_scope.

(** ** Strings *)

Module Str.

Definition newline : ascii := Ascii.ascii_of_nat 10.

(** [s.startswith(p)] *)
Fixpoint startswith (p s : string) : bool :=
  match p, s with
  | EmptyString, _ => true
  | String a p', String b s' => if Ascii.eqb a b then startswith p' s' else false
  | String _ _, EmptyString => false
  end.

(** [p in s] *)
Fixpoint contains (p s : string) : bool :=
  startswith p s ||
  match s with
  | EmptyString => false
  | String _ s' => contains p s'
  end.

(** ['\n' not in s] *)
Fixpoint no_newline (s : string) : bool :=
  match s with
  | EmptyString => true
  | String c s' => negb (Ascii.eqb c newline) && no_newline s'
  end.

(** The scan of [str.replace] for a non-empty [old]: [skip] counts the
    characters of an occurrence of [old] that was just replaced and that
    the scan still has to step over. *)
Fixpoint replace_from (skip : nat) (old new s : string) : string :=
  match s with
  | EmptyString => EmptyString
  | String c s' =>
      match skip with
      | S k => replace_from k old new s'
      | O =>
          if startswith old s
          then new +:+ replace_from (String.length old - 1) old new s'
          else String c (replace_from O old new s')
      end
  end.

(** With an empty [old], Python puts [new] before every character and at
    the end. *)
Fixpoint replace_empty (new s : string) : string :=
  match s with
  | EmptyString => new
  | String c s' => new +:+ String c (replace_empty new s')
  end.

(** [s.replace(old, new)]: every non-overlapping occurrence, leftmost
    first. *)
Definition replace (old new s : string) : string :=
  match old with
  | EmptyString => replace_empty new s
  | String _ _ => replace_from O old new s
  end.

(** The lines a file object iterates over: each keeps its terminating
    newline, the last one may have none, an empty file has no line. *)
Fixpoint readlines (s : string) : list string :=
  match s with
  | EmptyString => []
  | String c s' =>
      if Ascii.eqb c newline
      then String c EmptyString :: readlines s'
      else match readlines s' with
           | [] => [String c EmptyString]
           | l :: ls => String c l :: ls
           end
  end.

(** [s[:n]] *)
Fixpoint take (n : nat) (s : string) : string :=
  match n, s with
  | S n', String c s' => String c (take n' s')
  | _, _ => EmptyString
  end.

(** What a file object writes for a list of lines: their concatenation. *)
Fixpoint join_lines (ls : list string) : string :=
  match ls with
  | [] => EmptyString
  | l :: ls' => l +:+ join_lines ls'
  end.

(** [Some r] when [s = p +:+ r]. *)
Fixpoint strip_prefix (p s : string) : option string :=
  match p, s with
  | EmptyString, _ => Some s
  | String a p', String b s' => if Ascii.eqb a b then strip_prefix p' s' else None
  | String _ _, EmptyString => None
  end.

(** [p] occurs in [s] with no newline before the occurrence. *)
Fixpoint contains_on_first_line (p s : string) : bool :=
  startswith p s ||
  match s with
  | EmptyString => false
  | String c s' => negb (Ascii.eqb c newline) && contains_on_first_line p s'
  end.

End Str.

(** ** Regular expressions

    The fragment of Python's [re] syntax the script uses, and a
    backtracking matcher deciding whether [pattern.match(s)] returns a match
    object. *)

Module Re.

Inductive regex : Type :=
  | Bol                       (* ^ *)
  | Chr (c : ascii)           (* a literal character, also an escaped one *)
  | Dot                       (* . : any character but a newline *)
  | Eps
  | Seq (r1 r2 : regex)
  | Alt (r1 r2 : regex)       (* r1|r2 *)
  | Star (r : regex).         (* r*, greedy *)

(** A literal string. *)
Fixpoint lit (s : string) : regex :=
  match s with
  | EmptyString => Eps
  | String c s' => Seq (Chr c) (lit s')
  end.

(** The rounds of a greedy star whose body is [step]: another round when
    [n] allows and the last one consumed something, as the [re] engine
    does, then the continuation [k]. *)
Fixpoint star_rounds (step : (bool -> string -> bool) -> bool -> string -> bool)
    (k : bool -> string -> bool) (n : nat) (bol : bool) (s : string) : bool :=
  match n with
  | O => k bol s
  | S n' =>
      step (fun bol' s' =>
              if String.length s' <? String.length s
              then star_rounds step k n' bol' s' else false) bol s
      || k bol s
  end.

(** [run r k bol s]: [r] matches a prefix of [s], and the continuation [k]
    accepts what is left. [bol] tells whether the current position is the
    start of the subject. *)
Fixpoint run (r : regex) (k : bool -> string -> bool) (bol : bool) (s : string) : bool :=
  match r with
  | Bol => bol && k bol s
  | Chr c =>
      match s with
      | String c' s' => Ascii.eqb c c' && k false s'
      | EmptyString => false
      end
  | Dot =>
      match s with
      | String c' s' => negb (Ascii.eqb c' Str.newline) && k false s'
      | EmptyString => false
      end
  | Eps => k bol s
  | Seq r1 r2 => run r1 (run r2 k) bol s
  | Alt r1 r2 => run r1 k bol s || run r2 k bol s
  | Star r1 => star_rounds (run r1) k (String.length s) bol s
  end.

(** [bool(r.match(s))]: the match starts at position 0 and may end
    anywhere. *)
Definition matches (r : regex) (s : string) : bool :=
  run r (fun _ _ => true) true s.

End Re.

Notation "'EOL'" := (String Str.newline EmptyString).

(** ** The script's constants *)

Definition old_prefix : string := "import org.apache.http.annotation.".
Definition new_prefix : string := "import net.jcip.annotations.".

(** [re.compile('^(.svn|target|bin|classes)')] *)
Definition ignore_pattern : Re.regex :=
  Re.Seq Re.Bol
    (Re.Alt (Re.Seq Re.Dot (Re.lit "svn"))
       (Re.Alt (Re.lit "target") (Re.Alt (Re.lit "bin") (Re.lit "classes")))).

(** [re.compile('^.*\.java')] *)
Definition java_pattern : Re.regex :=
  Re.Seq Re.Bol (Re.Seq (Re.Star Re.Dot) (Re.lit ".java")).

(** [re.compile('import org\.apache\.http\.annotation\.')] *)
Definition annot_pattern : Re.regex := Re.lit "import org.apache.http.annotation.".

Definition annot_pattern_match (line : string) : bool := Re.matches annot_pattern line.
Definition java_pattern_match (file : string) : bool := Re.matches java_pattern file.
Definition ignore_pattern_match (file : string) : bool := Re.matches ignore_pattern file.

(** ** The filesystem

    A path is the list of its components, so that [os.path.join(dir, file)]
    appends one component ([os.listdir] returns names without a separator).
    The tree the script walks maps paths to regular files and directories;
    the scratch files of [tempfile.mkstemp] live in a store of their own,
    the system's temporary directory.

    The content of a file is the text a file object reads from it and
    writes to it, with lines ending in a newline character.

    Every system call advances [clock]; the call made at a tick listed in
    [faults] raises, and has no effect unless it is [shutil.move]. When its
    rename fails, [shutil.move] copies the scratch file over the destination
    and removes the scratch file: a move that fails may have left the first
    characters of the scratch file in the destination, as many as [torn]
    gives for the tick of the call, or, when [torn] has nothing for it, may
    not have touched the destination. With [faults = []] no call fails for a
    reason outside the model. *)

Definition path : Type := list string.

Inductive entry : Type :=
  | File (content : string)
  | Dir (names : list string).

(** The call that raised. *)
Inductive site : Type :=
  | AtListdir | AtMkstemp | AtFdopen | AtOpen | AtReadline | AtWrite
  | AtSrcClose | AtDstClose | AtMove
  | AtDiscard      (* os.remove(tmpfile) of the else branch *)
  | AtCleanup.     (* os.remove(tmpfile) of the except clause *)

Inductive exn : Type := OSError (raised : site).

Record world : Type := MkWorld {
  fs : gmap path entry;
  tmps : gmap nat string;
  clock : nat;
  faults : list nat;
  torn : gmap nat nat
}.

(** A world in which no failing move has started its copy. *)
Definition World (m : gmap path entry) (t : gmap nat string) (n : nat)
    (l : list nat) : world :=
  MkWorld m t n l ∅.

Definition set_fs (m : gmap path entry) (w : world) : world :=
  MkWorld m (tmps w) (clock w) (faults w) (torn w).
Definition set_tmps (m : gmap nat string) (w : world) : world :=
  MkWorld (fs w) m (clock w) (faults w) (torn w).
Definition set_clock (n : nat) (w : world) : world :=
  MkWorld (fs w) (tmps w) n (faults w) (torn w).

(** ** Computations: state, exceptions, and the fuel of the recursion *)

Inductive outcome (A : Type) : Type :=
  | Ret (a : A)
  | Raise (e : exn)
  | OutOfFuel.
Arguments Ret {A} a.
Arguments Raise {A} e.
Arguments OutOfFuel {A}.

Definition M (A : Type) : Type := world -> outcome A * world.

Definition ret {A} (a : A) : M A := fun w => (Ret a, w).

Definition bind {A B} (c : M A) (k : A -> M B) : M B := fun w =>
  match c w with
  | (Ret a, w') => k a w'
  | (Raise e, w') => (Raise e, w')
  | (OutOfFuel, w') => (OutOfFuel, w')
  end.

Notation "'let!' x ':=' c 'in' k" := (bind c (fun x => k))
  (at level 10, x name, c at level 100, k at level 200).
Notation "c '>>>' k" := (bind c (fun _ => k))
  (at level 100, k at level 200, right associativity).

(** [try: body finally: fin] *)
Definition try_finally {A} (body : M A) (fin : M unit) : M A := fun w =>
  match body w with
  | (OutOfFuel, w1) => (OutOfFuel, w1)
  | (r, w1) =>
      match fin w1 with
      | (Ret _, w2) => (r, w2)
      | (Raise e, w2) => (Raise e, w2)
      | (OutOfFuel, w2) => (OutOfFuel, w2)
      end
  end.

(** [try: body except: handler], a bare except clause that does not
    re-raise. *)
Definition try_except (body : M unit) (handler : M unit) : M unit := fun w =>
  match body w with
  | (Raise _, w1) => handler w1
  | other => other
  end.

(** [for x in xs: body(x)] *)
Fixpoint for_each {A} (xs : list A) (body : A -> M unit) : M unit :=
  match xs with
  | [] => ret tt
  | x :: xs' => body x >>> for_each xs' body
  end.

(** ** System calls *)

Definition fault_now (w : world) : bool := existsb (Nat.eqb (clock w)) (faults w).

Definition tick (s : site) : M unit := fun w =>
  let w' := set_clock (S (clock w)) w in
  if fault_now w then (Raise (OSError s), w') else (Ret tt, w').

(** [tempfile.mkstemp()]: a new empty scratch file under a name not in
    use. The descriptor and the name are the same key of [tmps]. *)
Definition tempfile_mkstemp : M nat :=
  tick AtMkstemp >>>
  fun w => let t := fresh (dom (tmps w)) in
           (Ret t, set_tmps (<[t := EmptyString]> (tmps w)) w).

(** [os.fdopen(tmpfd, 'w')] *)
Definition os_fdopen (tmpfd : nat) : M nat := tick AtFdopen >>> ret tmpfd.

(** [open(filename)]: the file object iterates over the lines of the
    content. *)
Definition open (filename : path) : M (list string) :=
  tick AtOpen >>>
  fun w => match fs w !! filename with
           | Some (File c) => (Ret (Str.readlines c), w)
           | _ => (Raise (OSError AtOpen), w)
           end.

(** [dst.write(line)] *)
Definition write (dst : nat) (line : string) : M unit :=
  tick AtWrite >>>
  fun w => (Ret tt, set_tmps (alter (fun c => c +:+ line) dst (tmps w)) w).

(** [src.close()] and [dst.close()] *)
Definition close (s : site) : M unit := tick s.

(** [shutil.move(tmpfile, filename)]. It renames, which replaces the
    destination in one step or fails without effect; when the rename fails
    (the scratch file of [mkstemp()] is in the system's temporary directory,
    often on another filesystem) it copies the scratch file over the
    destination, opened for writing, and unlinks the scratch file. A move
    that completes, either way, leaves the content of the scratch file in the
    destination and no scratch file. A move that fails leaves the scratch
    file, and the destination as it was, or with the [k] characters its copy
    wrote before the failure; with [k] beyond the length that is the whole
    content, the failure of the unlink. At its call the destination is the
    regular file that was just read. *)
Definition shutil_move (tmpfile : nat) (filename : path) : M unit := fun w =>
  let w0 := set_clock (S (clock w)) w in
  match tmps w !! tmpfile, fs w !! filename with
  | Some c, Some (File _) =>
      if fault_now w then
        match torn w !! clock w with
        | Some k =>
            (Raise (OSError AtMove),
             set_fs (<[filename := File (Str.take k c)]> (fs w)) w0)
        | None => (Raise (OSError AtMove), w0)
        end
      else
        (Ret tt, set_tmps (delete tmpfile (tmps w))
                   (set_fs (<[filename := File c]> (fs w)) w0))
  | _, _ => (Raise (OSError AtMove), w0)
  end.

(** [os.remove(tmpfile)] *)
Definition os_remove (s : site) (tmpfile : nat) : M unit :=
  tick s >>>
  fun w => match tmps w !! tmpfile with
           | Some _ => (Ret tt, set_tmps (delete tmpfile (tmps w)) w)
           | None => (Raise (OSError s), w)
           end.

(** [os.listdir(dir)] *)
Definition os_listdir (dir : path) : M (list string) :=
  tick AtListdir >>>
  fun w => match fs w !! dir with
           | Some (Dir names) => (Ret names, w)
           | _ => (Raise (OSError AtListdir), w)
           end.

(** [os.path.isdir(f)] never raises. *)
Definition os_path_isdir (f : path) : M bool := fun w =>
  (Ret match fs w !! f with Some (Dir _) => true | _ => false end, w).

Definition os_path_join (dir : path) (file : string) : path := dir ++ [file].

(** ** process_source *)

(** What the loop body does to one line, and whether it sets [changed]. *)
Definition rewrite_line (line : string) : string :=
  if annot_pattern_match line
  then Str.replace old_prefix new_prefix line
  else line.

(** [for line in src: ...]; every iteration, and the one that finds the end
    of the file, reads from [src]. *)
Fixpoint rewrite_lines (dst : nat) (src : list string) (changed : bool) : M bool :=
  match src with
  | [] => tick AtReadline >>> ret changed
  | line :: src' =>
      tick AtReadline >>>
      write dst (rewrite_line line) >>>
      rewrite_lines dst src' (annot_pattern_match line || changed)
  end.

(** The inner [try] blocks: both files are closed on every exit, and
    [changed] is what the loop left in it. *)
Definition copy_rewritten (tmpfd : nat) (filename : path) : M bool :=
  let! dst := os_fdopen tmpfd in
  try_finally
    (let! src := open filename in
     try_finally (rewrite_lines dst src false) (close AtSrcClose))
    (close AtDstClose).

(** The body of the outer [try]. *)
Definition process_source_body (tmpfd tmpfile : nat) (filename : path) : M unit :=
  let! changed := copy_rewritten tmpfd filename in
  if changed : bool
  then shutil_move tmpfile filename
  else os_remove AtDiscard tmpfile.

Definition process_source (filename : path) : M unit :=
  let! tmp := tempfile_mkstemp in
  let tmpfd := tmp in
  let tmpfile := tmp in
  try_except
    (process_source_body tmpfd tmpfile filename)
    (os_remove AtCleanup tmpfile).

(** ** process_dir *)

(** The body of [for file in files], with the recursive call as [rec]. *)
Definition visit (rec : path -> M unit) (dir : path) (file : string) : M unit :=
  let f := os_path_join dir file in
  let! d := os_path_isdir f in
  if d : bool then
    if negb (ignore_pattern_match file) then rec f else ret tt
  else
    if java_pattern_match file then process_source f else ret tt.

(** The recursion follows the directory tree, which the script does not
    bound: [fuel] bounds its depth here. *)
Fixpoint process_dir (fuel : nat) (dir : path) : M unit :=
  match fuel with
  | O => fun w => (OutOfFuel, w)
  | S fuel' =>
      let! files := os_listdir dir in
      for_each files (visit (process_dir fuel') dir)
  end.

(** [process_dir('.')] *)
Definition main (fuel : nat) : M unit := process_dir fuel ["."].

(** ** Vocabulary of the statements *)

(** The exceptions of the calls made inside the outer [try]. *)
Definition raised_in_try (e : exn) : bool :=
  match e with
  | OSError (AtFdopen | AtOpen | AtReadline | AtWrite
            | AtSrcClose | AtDstClose | AtMove | AtDiscard) => true
  | OSError (AtListdir | AtMkstemp | AtCleanup) => false
  end.

(** The file has a line that [annot_pattern] matches. *)
Definition has_matching_line (content : string) : bool :=
  existsb annot_pattern_match (Str.readlines content).

(** What the loop writes to the scratch file for a whole file. *)
Definition rewrite_content (content : string) : string :=
  Str.join_lines (map rewrite_line (Str.readlines content)).

(** A line with its leading prefix replaced once and its remainder kept
    verbatim: the rewrite of a line in the words of the specification. *)
Definition replace_prefix_once (line : string) : string :=
  match Str.strip_prefix old_prefix line with
  | Some rest => new_prefix +:+ rest
  | None => line
  end.

(** [l'] is what the loop writes for the line [l]: a line that does not
    start with the old prefix as it is; for one that does, the new prefix and
    the remainder with its own occurrences of the old prefix replaced, which
    is the remainder itself when it has none. *)
Definition line_rewritten (l l' : string) : Prop :=
  match Str.strip_prefix old_prefix l with
  | Some rest =>
      l' = new_prefix +:+ Str.replace old_prefix new_prefix rest ∧
      (Str.contains old_prefix rest = false → l' = new_prefix +:+ rest)
  | None => l' = l
  end.

(** The tree [m'] is [m] with the file [f], which has a matching line,
    rewritten as a whole. *)
Definition rewritten (f : path) (m m' : gmap path entry) : Prop :=
  ∃ c, m !! f = Some (File c) ∧ has_matching_line c = true ∧
       m' = <[f := File (rewrite_content c)]> m.

(** The computation leaves [torn] as it is. *)
Definition keeps_torn {A} (c : M A) : Prop := ∀ w, torn (snd (c w)) = torn w.

(** The tree [m'] is [m] with the file [f], which has a matching line,
    holding what a failed move copied: the first [k] characters of its
    rewritten lines, for a [k] that [t] has. *)
Definition torn_file (t : gmap nat nat) (f : path) (m m' : gmap path entry) : Prop :=
  ∃ c n k, t !! n = Some k ∧ m !! f = Some (File c) ∧ has_matching_line c = true ∧
           m' = <[f := File (Str.take k (rewrite_content c))]> m.

(** The lists of lines a file object can yield: every line but the last
    ends with its only newline, and the last one, when it has no newline, is
    not empty. *)
Inductive file_lines : list string → Prop :=
  | file_lines_nil : file_lines []
  | file_lines_last body :
      Str.no_newline body = true → body ≠ EmptyString → file_lines [body]
  | file_lines_cons body ls :
      Str.no_newline body = true → file_lines ls →
      file_lines ((body +:+ String Str.newline EmptyString) :: ls).

(** The paths [process_dir] may hand to [process_source] when started in
    [dir]: below [dir] through directories the ignore pattern does not
    match, with a last component the file pattern matches. *)
Definition dispatched_from (dir g : path) : Prop :=
  ∃ names file, g = dir ++ names ++ [file] ∧
    Forall (λ n, ignore_pattern_match n = false) names ∧
    java_pattern_match file = true.

(** The directories of a tree, with their listings. *)
Definition dir_view (e : option entry) : option (list string) :=
  match e with
  | Some (Dir names) => Some names
  | _ => None
  end.

Definition same_dirs (m m' : gmap path entry) : Prop :=
  ∀ g, dir_view (m' !! g) = dir_view (m !! g).

(** The directories the walk enters from [dir] nest at most [n] deep. *)
Inductive depth_le (m : gmap path entry) : nat → path → Prop :=
  | depth_le_S n dir :
      (∀ names file,
          dir_view (m !! dir) = Some names → file ∈ names →
          ignore_pattern_match file = false →
          is_Some (dir_view (m !! os_path_join dir file)) →
          depth_le m n (os_path_join dir file)) →
      depth_le m (S n) dir.

(** ** Sample trees *)

Definition eol : string := EOL.

(** A source tree with a build directory. *)
Definition sample_tree : gmap path entry :=
  <[ ["."] := Dir ["src"; "target"; "A.java"; "README"] ]>
  (<[ ["."; "src"] := Dir ["B.java"] ]>
  (<[ ["."; "target"] := Dir ["C.java"] ]>
  (<[ ["."; "A.java"] :=
        File ("package x;" +:+ eol +:+
              "import org.apache.http.annotation.ThreadSafe;" +:+ eol +:+
              "class A {}") ]>
  (<[ ["."; "README"] := File "import org.apache.http.annotation.ThreadSafe;" ]>
  (<[ ["."; "src"; "B.java"] := File ("import java.util.List;" +:+ eol) ]>
  (<[ ["."; "target"; "C.java"] :=
        File "import org.apache.http.annotation.Immutable;" ]> ∅)))))).

Definition sample_world : world := World sample_tree ∅ 0 [].

(** Two files to rewrite, and a fault scheduled for the call of [open] on the
    first one: [os.listdir] is call 0, [mkstemp] call 1, [os.fdopen]
    call 2. *)
Definition two_files : gmap path entry :=
  <[ ["."] := Dir ["A.java"; "B.java"] ]>
  (<[ ["."; "A.java"] := File "import org.apache.http.annotation.ThreadSafe;" ]>
  (<[ ["."; "B.java"] := File "import org.apache.http.annotation.Immutable;" ]> ∅)).

Definition failing_open_world : world := World two_files ∅ 0 [3].

(** A line with the old prefix a second time. *)
Definition two_imports : string :=
  "import org.apache.http.annotation.A; import org.apache.http.annotation.B;".
(** ** The files a walk reaches *)

(** What a pass of [process_source] in which no call fails makes of the
    entry at its path: a regular file gets its rewritten lines, and anything
    else, a directory or a name that is not there, is left. *)
Definition rewrite_entry (e : option entry) : option entry :=
  match e with
  | Some (File c) => Some (File (rewrite_content c))
  | other => other
  end.

(** [walked m dir g]: in the tree [m], the walk started in [dir] hands [g]
    to [process_source]. [g] is a name listed in a directory, not a
    directory itself and matched by the file pattern; the directory is
    [dir], or one reached from [dir] through listed directories that the
    ignore pattern does not match. *)
Inductive walked (m : gmap path entry) : path → path → Prop :=
  | walked_here dir names file :
      dir_view (m !! dir) = Some names → file ∈ names →
      dir_view (m !! os_path_join dir file) = None →
      java_pattern_match file = true →
      walked m dir (os_path_join dir file)
  | walked_below dir names file g :
      dir_view (m !! dir) = Some names → file ∈ names →
      is_Some (dir_view (m !! os_path_join dir file)) →
      ignore_pattern_match file = false →
      walked m (os_path_join dir file) g →
      walked m dir g.

(** While a walk in which no call fails goes over the tree [m0], the entry
    at [g] is the one of [m0] or that entry rewritten; the directories are
    those of [m0]. *)
Definition walk_inv (m0 : gmap path entry) (g : path) (w : world) : Prop :=
  faults w = [] ∧ same_dirs m0 (fs w) ∧
  (fs w !! g = m0 !! g ∨ fs w !! g = rewrite_entry (m0 !! g)).

(** The entry at [g] is the rewritten entry of [m0]. *)
Definition walk_done (m0 : gmap path entry) (g : path) (w : world) : Prop :=
  fs w !! g = rewrite_entry (m0 !! g).

(** A tree with a listed name that is not there (a dangling link), an
    empty directory, and a file with a matching line and an indented
    import. *)
Definition dangling_tree : gmap path entry :=
  <[ ["."] := Dir ["X.java"; "gone.java"; "docs"] ]>
  (<[ ["."; "X.java"] :=
        File ("import org.apache.http.annotation.Immutable;" +:+ eol +:+
              "  import org.apache.http.annotation.Indented;" +:+ eol) ]>
  (<[ ["."; "docs"] := Dir [] ]> ∅)).

(** As [failing_open_world], with a second fault scheduled for the
    [os.remove] of the except clause: [dst.close()] is call 4 and that
    [os.remove] call 5. *)
Definition failing_cleanup_world : world := World two_files ∅ 0 [3; 5].

(** [process_source] called at clock 0 on [A.java] of [two_files] makes the
    calls 0 to 7 up to [dst.close()], and [shutil.move] is call 8: here it
    fails after its copy has written 10 characters over the original. *)
Definition torn_move_world : world := MkWorld two_files ∅ 0 [8] {[ 8 := 10 ]}.

(** * Properties *)

(** ** Strings *)

Section StringFacts.

Lemma append_cons (c : ascii) (s t : string) : String c s +:+ t = String c (s +:+ t).
Proof. reflexivity. Qed.

Lemma append_nil_l (t : string) : EmptyString +:+ t = t.
Proof. reflexivity. Qed.

Lemma append_nil_r (s : string) : s +:+ EmptyString = s.
Proof. induction s as [|c s IH]; [done | by rewrite append_cons, IH]. Qed.

Lemma append_assoc (a b c : string) : (a +:+ b) +:+ c = a +:+ (b +:+ c).
Proof. induction a as [|x a IH]; [done | by rewrite !append_cons, IH]. Qed.

Lemma append_length (a b : string) :
  String.length (a +:+ b) = String.length a + String.length b.
Proof. induction a as [|x a IH]; [done | rewrite append_cons; simpl; by rewrite IH]. Qed.

Lemma strip_prefix_Some (p s r : string) :
  Str.strip_prefix p s = Some r ↔ s = p +:+ r.
Proof.
  revert s. induction p as [|a p IH]; intros s; simpl.
  - rewrite append_nil_l. split; [by intros [= ->] | by intros ->].
  - rewrite append_cons. destruct s as [|b s]; [split; [done | intros [=]] |].
    destruct (Ascii.eqb_spec a b) as [->|Hne].
    + rewrite IH. split; [by intros -> | by intros [= ->]].
    + split; [done | intros [=]; congruence].
Qed.

Lemma strip_prefix_app (p r : string) : Str.strip_prefix p (p +:+ r) = Some r.
Proof. by apply strip_prefix_Some. Qed.

Lemma startswith_strip (p s : string) :
  Str.startswith p s = match Str.strip_prefix p s with Some _ => true | None => false end.
Proof.
  revert s. induction p as [|a p IH]; intros s; simpl; [done |].
  destruct s as [|b s]; [done |]. by destruct (Ascii.eqb a b).
Qed.

Lemma startswith_true (p s : string) :
  Str.startswith p s = true ↔ ∃ r, s = p +:+ r.
Proof.
  rewrite startswith_strip. split.
  - destruct (Str.strip_prefix p s) as [r|] eqn:E; [| done].
    intros _. exists r. by apply strip_prefix_Some.
  - intros [r Hr%strip_prefix_Some]. by rewrite Hr.
Qed.

Lemma startswith_app (p r : string) : Str.startswith p (p +:+ r) = true.
Proof. apply startswith_true. eauto. Qed.

Lemma startswith_false_strip (p s : string) :
  Str.startswith p s = false → Str.strip_prefix p s = None.
Proof. rewrite startswith_strip. by destruct (Str.strip_prefix p s). Qed.

Lemma contains_on_first_line_true (p s : string) :
  Str.contains_on_first_line p s = true ↔
  ∃ pre post, s = pre +:+ p +:+ post ∧ Str.no_newline pre = true.
Proof.
  split.
  - induction s as [|c s IH]; simpl; rewrite orb_true_iff.
    + intros [H|[=]]. apply startswith_true in H as [r Hr]. by exists EmptyString, r.
    + intros [H|H].
      * apply startswith_true in H as [r Hr]. by exists EmptyString, r.
      * apply andb_true_iff in H as [Hc H]. destruct (IH H) as (pre & post & -> & Hpre).
        exists (String c pre), post. simpl. by rewrite Hc, Hpre.
  - intros (pre & post & -> & Hpre). induction pre as [|c pre IH].
    + rewrite append_nil_l.
      assert (Str.startswith p (p +:+ post) = true) as Hs by apply startswith_app.
      destruct (p +:+ post); simpl; by rewrite Hs.
    + simpl in Hpre. apply andb_true_iff in Hpre as [Hc Hpre].
      rewrite append_cons. simpl. rewrite Hc, (IH Hpre). apply orb_true_r.
Qed.

Lemma contains_no_newline (p s : string) :
  Str.no_newline s = true → Str.contains_on_first_line p s = Str.contains p s.
Proof.
  induction s as [|c s IH]; simpl; [done |].
  intros [Hc Hs]%andb_true_iff. by rewrite Hc, IH.
Qed.

End StringFacts.

(** ** The three patterns *)

Section Patterns.

Lemma run_Seq r1 r2 k bol s : Re.run (Re.Seq r1 r2) k bol s = Re.run r1 (Re.run r2 k) bol s.
Proof. reflexivity. Qed.

Lemma run_Alt r1 r2 k bol s :
  Re.run (Re.Alt r1 r2) k bol s = Re.run r1 k bol s || Re.run r2 k bol s.
Proof. reflexivity. Qed.

Lemma run_Bol k s : Re.run Re.Bol k true s = k true s.
Proof. reflexivity. Qed.

Lemma run_Star r k bol s :
  Re.run (Re.Star r) k bol s = Re.star_rounds (Re.run r) k (String.length s) bol s.
Proof. reflexivity. Qed.

Lemma run_lit (p : string) (k : bool → string → bool) (bol : bool) (s : string) :
  Re.run (Re.lit p) k bol s =
  match Str.strip_prefix p s with
  | Some r => k (bol && bool_decide (p = EmptyString)) r
  | None => false
  end.
Proof.
  revert bol s. induction p as [|a p IH]; intros bol s; simpl.
  - by rewrite andb_true_r.
  - destruct s as [|b s]; [done |].
    destruct (Ascii.eqb _ _); simpl; [| done].
    rewrite IH. destruct (Str.strip_prefix p s); [| done].
    by rewrite andb_false_r.
Qed.

Lemma run_lit_anywhere (p : string) (bol : bool) (s : string) :
  Re.run (Re.lit p) (λ _ _, true) bol s = Str.startswith p s.
Proof. by rewrite run_lit, startswith_strip. Qed.

Lemma matches_lit (p s : string) : Re.matches (Re.lit p) s = Str.startswith p s.
Proof. apply run_lit_anywhere. Qed.

(** The pattern of [annot_pattern] is a literal: [match] is [startswith]. *)
Lemma annot_pattern_match_startswith (line : string) :
  annot_pattern_match line = Str.startswith old_prefix line.
Proof. apply matches_lit. Qed.

(** [.*] followed by a continuation that only tests for a literal. *)
Lemma star_rounds_dot (p : string) (k : bool → string → bool) (n : nat)
    (bol : bool) (s : string) :
  (∀ b x, k b x = Str.startswith p x) →
  String.length s ≤ n →
  Re.star_rounds (Re.run Re.Dot) k n bol s = Str.contains_on_first_line p s.
Proof.
  intros Hk. revert bol s. induction n as [|n IH]; intros bol s Hlen.
  - destruct s; simpl in *; [| lia]. by rewrite Hk, orb_false_r.
  - simpl. destruct s as [|c s].
    + simpl. by rewrite Hk, orb_false_r.
    + cbn [String.length Str.contains_on_first_line].
      replace (String.length s <? S (String.length s)) with true
        by (symmetry; apply Nat.ltb_lt; lia).
      rewrite IH by (simpl in Hlen; lia). rewrite Hk. apply orb_comm.
Qed.

Lemma java_pattern_match_scan (file : string) :
  java_pattern_match file = Str.contains_on_first_line ".java" file.
Proof.
  unfold java_pattern_match, Re.matches, java_pattern.
  rewrite run_Seq, run_Bol, run_Seq, run_Star.
  apply star_rounds_dot; [| done].
  intros b x. apply (matches_lit ".java").
Qed.

Lemma ignore_pattern_match_cases (file : string) :
  ignore_pattern_match file =
  match file with
  | EmptyString => false
  | String c rest => negb (Ascii.eqb c Str.newline) && Str.startswith "svn" rest
  end
  || Str.startswith "target" file
  || Str.startswith "bin" file
  || Str.startswith "classes" file.
Proof.
  unfold ignore_pattern_match, Re.matches, ignore_pattern.
  rewrite run_Seq, run_Bol, !run_Alt, !run_lit_anywhere, run_Seq, <- !orb_assoc.
  do 3 f_equal.
Qed.

End Patterns.

(** ** System calls *)

Section Calls.

Lemma fault_now_nil (w : world) : faults w = [] → fault_now w = false.
Proof. unfold fault_now. by intros ->. Qed.

Lemma tick_run (s : site) (w : world) :
  tick s w =
  (if fault_now w then Raise (OSError s) else Ret tt, set_clock (S (clock w)) w).
Proof. unfold tick. by destruct (fault_now w). Qed.

Lemma alter_as_insert (f : string → string) (t : nat) (x : string) (m : gmap nat string) :
  m !! t = Some x → alter f t m = <[t := f x]> m.
Proof.
  intros Hx. apply map_eq. intros i. destruct (decide (t = i)) as [->|Hne].
  - by rewrite lookup_alter_eq, lookup_insert_eq, Hx.
  - by rewrite lookup_alter_ne, lookup_insert_ne.
Qed.

Lemma existsb_acc {A} (f : A → bool) (x : A) (xs : list A) (b : bool) :
  existsb f xs || (f x || b) = existsb f (x :: xs) || b.
Proof. simpl. destruct (f x), (existsb f xs), b; reflexivity. Qed.

End Calls.

(** ** The rewriter *)

Section Loop.

(** What a pass of the loop leaves in the scratch file, whether it ends or
    raises; when it ends, all of the lines are there and [changed] tells
    whether one of them matched. *)
Lemma rewrite_lines_spec (dst : nat) (src : list string) :
  ∀ (changed : bool) (w : world) (r : outcome bool) (w' : world) (acc : string),
    tmps w !! dst = Some acc →
    rewrite_lines dst src changed w = (r, w') →
    fs w' = fs w ∧ faults w' = faults w ∧ clock w < clock w' ∧
    ∃ acc', tmps w' = <[dst := acc']> (tmps w) ∧
      match r with
      | Ret b =>
          b = existsb annot_pattern_match src || changed ∧
          acc' = acc +:+ Str.join_lines (map rewrite_line src)
      | Raise e => raised_in_try e = true
      | OutOfFuel => False
      end ∧
      (faults w = [] → ∃ b, r = Ret b).
Proof.
  induction src as [|line src IH]; intros changed w r w' acc Hacc Hrun.
  - simpl in Hrun. unfold bind in Hrun. rewrite tick_run in Hrun.
    destruct (fault_now w) eqn:Hf; injection Hrun as <- <-; simpl;
      (split_and!; [done | done | lia |]); exists acc;
      (split; [by rewrite insert_id |]).
    + split; [done |]. intros Hnil. by rewrite fault_now_nil in Hf.
    + rewrite append_nil_r. eauto.
  - simpl in Hrun. unfold bind at 1 in Hrun. rewrite tick_run in Hrun.
    destruct (fault_now w) eqn:Hf.
    { injection Hrun as <- <-; simpl. split_and!; [done | done | lia |].
      exists acc. split; [by rewrite insert_id |]. split; [done |].
      intros Hnil. by rewrite fault_now_nil in Hf. }
    unfold bind at 1, write in Hrun. unfold bind at 1 in Hrun.
    rewrite tick_run in Hrun. simpl in Hrun.
    destruct (fault_now (set_clock (S (clock w)) w)) eqn:Hf2.
    { injection Hrun as <- <-; simpl. split_and!; [done | done | lia |].
      exists acc. split; [by rewrite insert_id |]. split; [done |].
      intros Hnil. by rewrite fault_now_nil in Hf2. }
    rewrite (alter_as_insert _ _ acc) in Hrun by done.
    eapply IH in Hrun as (Hfs & Hfl & Hck & acc' & Htm & Hr & Htot);
      [| simpl; apply lookup_insert_eq].
    simpl in *. split_and!; [done | done | lia |].
    exists acc'. split; [by rewrite Htm, insert_insert_eq |]. split; [| done].
    destruct r as [b| |]; [| done | done].
    destruct Hr as [-> ->]. split; [apply existsb_acc |].
    by rewrite append_assoc.
Qed.

End Loop.

(** A call that did fail cannot have been made where no fault is scheduled. *)
Ltac no_fault :=
  intros ?; exfalso;
  match goal with
  | H : fault_now ?w = true |- _ =>
      rewrite fault_now_nil in H by (simpl in *; congruence); discriminate H
  end.

Section Source.

Lemma try_finally_close {A} (body : M A) (s : site) (w : world) :
  try_finally body (close s) w =
  match body w with
  | (OutOfFuel, w1) => (OutOfFuel, w1)
  | (r, w1) => (if fault_now w1 then Raise (OSError s) else r, set_clock (S (clock w1)) w1)
  end.
Proof.
  unfold try_finally, close. destruct (body w) as [[a|e|] w1]; [| | done];
    rewrite tick_run; by destruct (fault_now w1).
Qed.

Lemma copy_rewritten_spec (t : nat) (f : path) (w : world) (r : outcome bool) (w' : world) :
  tmps w !! t = Some EmptyString →
  copy_rewritten t f w = (r, w') →
  fs w' = fs w ∧ faults w' = faults w ∧ clock w < clock w' ∧
  ∃ acc, tmps w' = <[t := acc]> (tmps w) ∧
    match r with
    | Ret b =>
        ∃ c, fs w !! f = Some (File c) ∧ b = has_matching_line c ∧ acc = rewrite_content c
    | Raise e => raised_in_try e = true
    | OutOfFuel => False
    end ∧
    (faults w = [] →
     r = match fs w !! f with
         | Some (File c) => Ret (has_matching_line c)
         | _ => Raise (OSError AtOpen)
         end).
Proof.
  intros Hacc Hrun. unfold copy_rewritten, os_fdopen in Hrun.
  unfold bind at 1 2 in Hrun. rewrite tick_run in Hrun.
  destruct (fault_now w) eqn:Hf.
  { injection Hrun as <- <-. simpl. split_and!; [done | done | lia |].
    exists EmptyString. split; [by rewrite insert_id |]. split; [done | no_fault]. }
  unfold ret in Hrun. rewrite try_finally_close in Hrun.
  set (w1 := set_clock (S (clock w)) w) in *.
  unfold bind at 1, open in Hrun. unfold bind at 1 in Hrun.
  rewrite tick_run in Hrun.
  set (w2 := set_clock (S (clock w1)) w1) in *.
  destruct (fault_now w1) eqn:Hf1.
  { simpl in Hrun. injection Hrun as <- <-. simpl. split_and!; [done | done | lia |].
    exists EmptyString. split; [by rewrite insert_id |].
    split; [by destruct (fault_now w2) | no_fault]. }
  change (fs w2) with (fs w) in Hrun.
  destruct (fs w !! f) as [[c|names]|] eqn:Hfile;
    [| simpl in Hrun; injection Hrun as <- <-; simpl; (split_and!; [done | done | lia |]);
       exists EmptyString; (split; [by rewrite insert_id |]);
       destruct (fault_now w2) eqn:Hf2; (split; [done |]); [no_fault | done] ..].
  rewrite try_finally_close in Hrun.
  destruct (rewrite_lines t (Str.readlines c) false w2) as [r0 w3] eqn:Hloop.
  eapply rewrite_lines_spec in Hloop as (Hfs & Hfl & Hck & acc & Htm & Hr & Htot);
    [| exact Hacc].
  destruct r0 as [b|e|]; [| | done].
  - destruct (fault_now w3) eqn:Hf3, (fault_now (set_clock (S (clock w3)) w3)) eqn:Hf4;
      injection Hrun as <- <-; simpl in *; (split_and!; [done | done | lia |]);
      exists acc; (split; [done |]); (split; [| try no_fault]); try done.
    + destruct Hr as [-> ->]. exists c. rewrite orb_false_r. by rewrite append_nil_l.
    + intros _. destruct Hr as [-> _]. by rewrite orb_false_r.
  - destruct (fault_now w3) eqn:Hf3, (fault_now (set_clock (S (clock w3)) w3)) eqn:Hf4;
      injection Hrun as <- <-; simpl in *; (split_and!; [done | done | lia |]);
      exists acc; (split; [done |]); (split; [done |]); try no_fault.
    intros Hnil. by destruct (Htot Hnil).
Qed.

Lemma keeps_torn_ret {A} (a : A) : keeps_torn (ret a).
Proof. done. Qed.

Lemma keeps_torn_bind {A B} (c : M A) (k : A → M B) :
  keeps_torn c → (∀ a, keeps_torn (k a)) → keeps_torn (bind c k).
Proof.
  intros Hc Hk w. unfold bind. specialize (Hc w).
  destruct (c w) as [[a|e|] w1]; simpl in *; [| done | done].
  by rewrite Hk.
Qed.

Lemma keeps_torn_tick (s : site) : keeps_torn (tick s).
Proof. intros w. rewrite tick_run. done. Qed.

Lemma keeps_torn_try_finally {A} (body : M A) (fin : M unit) :
  keeps_torn body → keeps_torn fin → keeps_torn (try_finally body fin).
Proof.
  intros Hb Hf w. unfold try_finally. specialize (Hb w).
  destruct (body w) as [[a|e|] w1]; simpl in *; [| | done];
    specialize (Hf w1); destruct (fin w1) as [[[]|e'|] w2]; simpl in *; congruence.
Qed.

Lemma keeps_torn_try_except (body handler : M unit) :
  keeps_torn body → keeps_torn handler → keeps_torn (try_except body handler).
Proof.
  intros Hb Hh w. unfold try_except. specialize (Hb w).
  destruct (body w) as [[a|e|] w1]; simpl in *; [done | | done].
  by rewrite Hh.
Qed.

Lemma keeps_torn_for_each {A} (xs : list A) (body : A → M unit) :
  (∀ x, keeps_torn (body x)) → keeps_torn (for_each xs body).
Proof.
  intros Hbody. induction xs as [|x xs IH]; [done |].
  simpl. by apply keeps_torn_bind.
Qed.

Lemma keeps_torn_rewrite_lines (dst : nat) (src : list string) (changed : bool) :
  keeps_torn (rewrite_lines dst src changed).
Proof.
  revert changed. induction src as [|line src IH]; intros changed; simpl.
  - apply keeps_torn_bind; [apply keeps_torn_tick | intros _; apply keeps_torn_ret].
  - apply keeps_torn_bind; [apply keeps_torn_tick | intros _].
    apply keeps_torn_bind; [| intros _; apply IH].
    apply keeps_torn_bind; [apply keeps_torn_tick | by intros _ w].
Qed.

Lemma keeps_torn_copy_rewritten (t : nat) (f : path) : keeps_torn (copy_rewritten t f).
Proof.
  apply keeps_torn_bind.
  { apply keeps_torn_bind; [apply keeps_torn_tick | intros _; apply keeps_torn_ret]. }
  intros dst. apply keeps_torn_try_finally; [| apply keeps_torn_tick].
  apply keeps_torn_bind.
  - apply keeps_torn_bind; [apply keeps_torn_tick |].
    intros _ w. by destruct (fs w !! f) as [[c|names]|].
  - intros src. apply keeps_torn_try_finally;
      [apply keeps_torn_rewrite_lines | apply keeps_torn_tick].
Qed.

Lemma keeps_torn_os_remove (s : site) (t : nat) : keeps_torn (os_remove s t).
Proof.
  apply keeps_torn_bind; [apply keeps_torn_tick |].
  intros _ w. by destruct (tmps w !! t).
Qed.

Lemma keeps_torn_shutil_move (t : nat) (f : path) : keeps_torn (shutil_move t f).
Proof.
  intros w. unfold shutil_move.
  destruct (tmps w !! t) as [c|]; [| done].
  destruct (fs w !! f) as [[c'|names]|]; [| done | done].
  destruct (fault_now w); [| done]. by destruct (torn w !! clock w).
Qed.

Lemma keeps_torn_process_source (f : path) : keeps_torn (process_source f).
Proof.
  apply keeps_torn_bind.
  { apply keeps_torn_bind; [apply keeps_torn_tick | by intros _ w]. }
  intros t. apply keeps_torn_try_except; [| apply keeps_torn_os_remove].
  apply keeps_torn_bind; [apply keeps_torn_copy_rewritten |].
  intros [|]; [apply keeps_torn_shutil_move | apply keeps_torn_os_remove].
Qed.

Lemma keeps_torn_process_dir (fuel : nat) (dir : path) : keeps_torn (process_dir fuel dir).
Proof.
  revert dir. induction fuel as [|fuel IH]; intros dir; [done |].
  simpl. apply keeps_torn_bind.
  { apply keeps_torn_bind; [apply keeps_torn_tick |].
    intros _ w. by destruct (fs w !! dir) as [[c|names]|]. }
  intros files. apply keeps_torn_for_each. intros file.
  apply keeps_torn_bind; [done |].
  intros [|].
  - destruct (negb (ignore_pattern_match file)); [apply IH | apply keeps_torn_ret].
  - destruct (java_pattern_match file);
      [apply keeps_torn_process_source | apply keeps_torn_ret].
Qed.

Lemma mkstemp_run (w : world) :
  tempfile_mkstemp w =
  let w0 := set_clock (S (clock w)) w in
  if fault_now w then (Raise (OSError AtMkstemp), w0)
  else let t := fresh (dom (tmps w)) in
       (Ret t, set_tmps (<[t := EmptyString]> (tmps w)) w0).
Proof.
  unfold tempfile_mkstemp, bind. rewrite tick_run. by destruct (fault_now w).
Qed.

Lemma os_remove_run (s : site) (t : nat) (w : world) :
  is_Some (tmps w !! t) →
  os_remove s t w =
  let w0 := set_clock (S (clock w)) w in
  if fault_now w then (Raise (OSError s), w0)
  else (Ret tt, set_tmps (delete t (tmps w)) w0).
Proof.
  intros [x Hx]. unfold os_remove, bind. rewrite tick_run.
  destruct (fault_now w); [done |]. simpl. by rewrite Hx.
Qed.

Lemma shutil_move_run (t : nat) (f : path) (w : world) (acc c : string) :
  tmps w !! t = Some acc → fs w !! f = Some (File c) →
  shutil_move t f w =
  let w0 := set_clock (S (clock w)) w in
  if fault_now w
  then (Raise (OSError AtMove),
        match torn w !! clock w with
        | Some k => set_fs (<[f := File (Str.take k acc)]> (fs w)) w0
        | None => w0
        end)
  else (Ret tt, set_tmps (delete t (tmps w)) (set_fs (<[f := File acc]> (fs w)) w0)).
Proof.
  intros Hacc Hc. unfold shutil_move. rewrite Hacc, Hc.
  destruct (fault_now w); [| done]. by destruct (torn w !! clock w).
Qed.

(** The body of the outer [try]: when it ends the scratch file is gone and
    the file is as it was or rewritten as a whole; when it raises the scratch
    file is still there, and the tree is as it was unless the exception is
    that of a move that had started its copy. *)
Lemma process_source_body_spec (t : nat) (f : path) (w0 : world)
    (r : outcome unit) (w1 : world) :
  tmps w0 !! t = Some EmptyString →
  process_source_body t t f w0 = (r, w1) →
  faults w1 = faults w0 ∧ clock w0 < clock w1 ∧
  match r with
  | Ret _ => tmps w1 = delete t (tmps w0) ∧ (fs w1 = fs w0 ∨ rewritten f (fs w0) (fs w1))
  | Raise e =>
      raised_in_try e = true ∧
      (fs w1 = fs w0 ∨ torn_file (torn w0) f (fs w0) (fs w1)) ∧
      ∃ acc, tmps w1 = <[t := acc]> (tmps w0)
  | OutOfFuel => False
  end ∧
  (faults w0 = [] →
   match fs w0 !! f with
   | Some (File c) =>
       r = Ret tt ∧
       fs w1 = if has_matching_line c
               then <[f := File (rewrite_content c)]> (fs w0) else fs w0
   | _ => r = Raise (OSError AtOpen)
   end).
Proof.
  intros Hacc Hrun. unfold process_source_body, bind in Hrun.
  destruct (copy_rewritten t f w0) as [r0 w] eqn:Hcopy.
  destruct (copy_rewritten_spec _ _ _ _ _ Hacc Hcopy)
    as (Hfs & Hfl & Hck & acc & Htm & Hr & Htot).
  assert (tmps w !! t = Some acc) as Ht by (rewrite Htm; apply lookup_insert_eq).
  pose proof (keeps_torn_copy_rewritten t f w0) as Htorn.
  rewrite Hcopy in Htorn. simpl in Htorn.
  destruct r0 as [[|]|e|]; [| | | done].
  - destruct Hr as (c & Hc & Hb & ->).
    rewrite (shutil_move_run _ _ _ _ c) in Hrun by (done || by rewrite Hfs).
    destruct (fault_now w) eqn:Hf; injection Hrun as <- <-.
    + split; [by destruct (torn w !! clock w) |].
      split; [destruct (torn w !! clock w); simpl; lia |].
      split; [| no_fault]. split; [done |]. split.
      * destruct (torn w !! clock w) as [k|] eqn:Hk; simpl; [| by left].
        right. exists c, (clock w), k. rewrite <- Htorn.
        split_and!; [done | done | done | by rewrite Hfs].
      * exists (rewrite_content c). by destruct (torn w !! clock w).
    + simpl in *. split; [done | split; [lia | split]].
      * split; [by rewrite Htm, delete_insert_eq |]. right. exists c. by rewrite Hfs.
      * intros _. rewrite Hc. split; [done |]. by rewrite <- Hb, Hfs.
  - destruct Hr as (c & Hc & Hb & ->).
    rewrite os_remove_run in Hrun by eauto.
    destruct (fault_now w) eqn:Hf; injection Hrun as <- <-; simpl in *;
      (split; [done | split; [lia | split]]).
    + rewrite Htm. eauto.
    + no_fault.
    + split; [by rewrite Htm, delete_insert_eq | by left].
    + intros _. rewrite Hc. split; [done |]. by rewrite <- Hb.
  - injection Hrun as <- <-. split; [done | split; [lia | split; [eauto |]]].
    intros Hnil. specialize (Htot Hnil).
    destruct (fs w0 !! f) as [[c|names]|]; congruence.
Qed.

(** [process_source]: the scratch file is gone whenever the function
    returns, and the file is then as it was, rewritten as a whole, or left
    with what a failed move copied; it raises only from [mkstemp] and from
    the removal of the except clause. *)
Lemma process_source_spec (f : path) (w : world) (r : outcome unit) (w' : world) :
  process_source f w = (r, w') →
  faults w' = faults w ∧ clock w < clock w' ∧
  match r with
  | Ret _ =>
      tmps w' = tmps w ∧
      (fs w' = fs w ∨ rewritten f (fs w) (fs w') ∨ torn_file (torn w) f (fs w) (fs w'))
  | Raise e =>
      (fs w' = fs w ∨ torn_file (torn w) f (fs w) (fs w')) ∧
      ((e = OSError AtMkstemp ∧ tmps w' = tmps w) ∨
       (e = OSError AtCleanup ∧
        ∃ t acc, tmps w !! t = None ∧ tmps w' = <[t := acc]> (tmps w)))
  | OutOfFuel => False
  end ∧
  (faults w = [] →
   r = Ret tt ∧
   fs w' = match fs w !! f with
           | Some (File c) =>
               if has_matching_line c
               then <[f := File (rewrite_content c)]> (fs w) else fs w
           | _ => fs w
           end).
Proof.
  intros Hrun. unfold process_source, bind in Hrun. rewrite mkstemp_run in Hrun.
  destruct (fault_now w) eqn:Hf; simpl in Hrun.
  { injection Hrun as <- <-. simpl.
    split; [done | split; [lia | split; [| no_fault]]].
    split; [by left | by left]. }
  set (t := fresh (dom (tmps w))) in *.
  assert (tmps w !! t = None) as Hfresh by (apply not_elem_of_dom, is_fresh).
  set (w0 := set_tmps (<[t:=EmptyString]> (tmps w)) (set_clock (S (clock w)) w)) in *.
  unfold try_except in Hrun.
  destruct (process_source_body t t f w0) as [r1 w1] eqn:Hbody.
  apply process_source_body_spec in Hbody as (Hfl & Hck & Hr & Htot);
    [| apply lookup_insert_eq].
  simpl in Hfl, Hck, Htot. destruct r1 as [[]|e|]; [| | done].
  - injection Hrun as <- <-. destruct Hr as [Htm Hfs]. simpl in *.
    split; [done | split; [lia | split]].
    + split; [by rewrite Htm, delete_insert_id |].
      destruct Hfs as [?|?]; [by left | right; by left].
    + intros Hnil. specialize (Htot Hnil). split; [done |].
      destruct (fs w !! f) as [[c|names]|]; [by destruct Htot | done ..].
  - destruct Hr as (_ & Hfs & acc & Htm). simpl in *.
    rewrite insert_insert_eq in Htm.
    rewrite os_remove_run in Hrun by (rewrite Htm, lookup_insert_eq; eauto).
    destruct (fault_now w1) eqn:Hf1; injection Hrun as <- <-; simpl;
      (split; [done | split; [lia | split]]).
    + split; [done |]. right. split; [done |]. by exists t, acc.
    + no_fault.
    + split; [by rewrite Htm, delete_insert_id |].
      destruct Hfs as [?|?]; [by left | right; by right].
    + intros Hnil. specialize (Htot Hnil). split; [done |].
      destruct (fs w !! f) as [[c|names]|] eqn:Hf0; [by destruct Htot | ..];
        (destruct Hfs as [?|(c' & n & k & _ & Hc' & _)]; [done | congruence]).
Qed.

(** What [process_source] can do to the tree, whatever calls fail: nothing,
    or put some content in the file it was given, which had a matching
    line. *)
Lemma process_source_fs (f : path) (w : world) :
  fs (snd (process_source f w)) = fs w ∨
  ∃ c c', fs w !! f = Some (File c) ∧ has_matching_line c = true ∧
          fs (snd (process_source f w)) = <[f := File c']> (fs w).
Proof.
  destruct (process_source f w) as [r w'] eqn:Hrun.
  apply process_source_spec in Hrun as (_ & _ & Hr & _). simpl.
  assert (torn_file (torn w) f (fs w) (fs w') →
          ∃ c c', fs w !! f = Some (File c) ∧ has_matching_line c = true ∧
                  fs w' = <[f := File c']> (fs w)) as Htorn
    by (intros (c & n & k & _ & Hc & Hm & ->); eauto).
  destruct r as [[]|e|]; [| | done].
  - destruct Hr as [_ [?|[(c & Hc & Hm & ->)|?]]]; [by left | right; eauto | right; auto].
  - destruct Hr as [[?|?] _]; [by left | right; auto].
Qed.

(** When no failing move has started its copy, the tree is as it was or
    the file is rewritten as a whole. *)
Lemma process_source_untorn (f : path) (w : world) :
  torn w = ∅ →
  fs (snd (process_source f w)) = fs w ∨
  rewritten f (fs w) (fs (snd (process_source f w))).
Proof.
  intros Hnone. destruct (process_source f w) as [r w'] eqn:Hrun.
  apply process_source_spec in Hrun as (_ & _ & Hr & _). simpl.
  assert (¬ torn_file (torn w) f (fs w) (fs w')) as Htorn
    by (intros (c & n & k & Hk & _); by rewrite Hnone, lookup_empty in Hk).
  destruct r as [[]|e|]; [| | done].
  - destruct Hr as [_ [?|[?|?]]]; [by left | by right | done].
  - destruct Hr as [[?|?] _]; [by left | done].
Qed.

End Source.

(** ** Lines and [str.replace] *)


Section Lines.

Lemma no_newline_app (a b : string) :
  Str.no_newline (a +:+ b) = Str.no_newline a && Str.no_newline b.
Proof.
  induction a as [|c a IH]; [done |]. rewrite append_cons. simpl.
  by rewrite IH, andb_assoc.
Qed.

Lemma join_readlines (s : string) : Str.join_lines (Str.readlines s) = s.
Proof.
  induction s as [|c s IH]; [done |]. simpl.
  destruct (Ascii.eqb_spec c Str.newline) as [->|Hc]; simpl.
  - by rewrite IH.
  - destruct (Str.readlines s) as [|l ls]; simpl in *.
    + by rewrite <- IH.
    + by rewrite append_cons, IH.
Qed.

Lemma readlines_file_lines (s : string) : file_lines (Str.readlines s).
Proof.
  induction s as [|c s IH]; simpl; [constructor |].
  destruct (Ascii.eqb c Str.newline) eqn:Hc.
  - apply Ascii.eqb_eq in Hc as ->. by apply (file_lines_cons EmptyString).
  - inversion IH as [|body Hb Hne Heq|body ls Hb Hls Heq].
    + apply file_lines_last; [simpl; by rewrite Hc | done].
    + apply file_lines_last; [simpl; by rewrite Hc | done].
    + apply (file_lines_cons (String c body)); [simpl; by rewrite Hc | done].
Qed.

Lemma readlines_one (body : string) :
  Str.no_newline body = true → body ≠ EmptyString → Str.readlines body = [body].
Proof.
  induction body as [|c body IH]; [done |]. simpl.
  intros [Hc Hb]%andb_true_iff _. apply negb_true_iff in Hc. rewrite Hc.
  destruct body as [|c' body]; [done |]. by rewrite IH.
Qed.

Lemma readlines_terminated (body rest : string) :
  Str.no_newline body = true →
  Str.readlines ((body +:+ EOL) +:+ rest) = (body +:+ EOL) :: Str.readlines rest.
Proof.
  induction body as [|c body IH]; intros Hb.
  - reflexivity.
  - simpl in Hb. apply andb_true_iff in Hb as [Hc Hb]. apply negb_true_iff in Hc.
    rewrite !append_cons. simpl. by rewrite Hc, IH.
Qed.

Lemma readlines_join (ls : list string) :
  file_lines ls → Str.readlines (Str.join_lines ls) = ls.
Proof.
  induction 1 as [|body Hb Hne|body ls Hb Hls IH]; simpl.
  - done.
  - rewrite append_nil_r. by apply readlines_one.
  - by rewrite readlines_terminated, IH.
Qed.

(** *** [str.replace] with a non-empty [old] *)

Lemma replace_from_skip (old new p rest : string) :
  Str.replace_from (String.length p) old new (p +:+ rest) =
  Str.replace_from 0 old new rest.
Proof.
  induction p as [|c p IH]; [by destruct rest |]. by rewrite append_cons.
Qed.

Lemma replace_from_occurrence (a : ascii) (old' new rest : string) :
  Str.replace_from 0 (String a old') new (String a old' +:+ rest) =
  new +:+ Str.replace_from 0 (String a old') new rest.
Proof.
  rewrite append_cons. cbn [Str.replace_from].
  rewrite <- append_cons, startswith_app. f_equal.
  cbn [String.length]. rewrite Nat.sub_1_r. simpl Nat.pred.
  apply replace_from_skip.
Qed.

Lemma replace_from_absent (old new s : string) :
  Str.contains old s = false → Str.replace_from 0 old new s = s.
Proof.
  induction s as [|c s IH]; [done |]. cbn [Str.contains Str.replace_from].
  intros [Hs Hc]%orb_false_iff. rewrite Hs. by rewrite IH.
Qed.

Lemma replace_from_no_newline (old new s : string) (k : nat) :
  Str.no_newline new = true → Str.no_newline s = true →
  Str.no_newline (Str.replace_from k old new s) = true.
Proof.
  intros Hnew. revert k. induction s as [|c s IH]; intros k Hs; [done |].
  simpl in Hs. apply andb_true_iff in Hs as [Hc Hs]. cbn [Str.replace_from].
  destruct k as [|k]; [| by apply IH].
  destruct (Str.startswith old (String c s)).
  - rewrite no_newline_app, Hnew. by apply IH.
  - simpl. rewrite Hc. by apply IH.
Qed.

Lemma startswith_length (p s : string) :
  Str.startswith p s = true → String.length p ≤ String.length s.
Proof.
  intros [r ->]%startswith_true. rewrite append_length. lia.
Qed.

Lemma startswith_before_newline (p s : string) :
  Str.no_newline p = true → p ≠ EmptyString →
  Str.startswith p (s +:+ EOL) = Str.startswith p s.
Proof.
  revert s. induction p as [|a p IH]; intros s Hp Hne; [done |].
  simpl in Hp. apply andb_true_iff in Hp as [Ha Hp]. apply negb_true_iff in Ha.
  destruct s as [|b s].
  - rewrite append_nil_l. simpl. by rewrite Ha.
  - rewrite append_cons. simpl. destruct (Ascii.eqb a b); [| done].
    destruct p as [|a' p]; [done |]. by apply IH.
Qed.

Lemma replace_from_before_newline (old new s : string) (k : nat) :
  Str.no_newline old = true → old ≠ EmptyString → k ≤ String.length s →
  Str.replace_from k old new (s +:+ EOL) = Str.replace_from k old new s +:+ EOL.
Proof.
  intros Hold Hne. revert k. induction s as [|c s IH]; intros k Hk.
  - assert (k = 0) as -> by (simpl in Hk; lia).
    rewrite append_nil_l. cbn [Str.replace_from].
    rewrite <- (append_nil_l EOL) at 1.
    rewrite startswith_before_newline by done.
    by destruct old.
  - rewrite append_cons. cbn [Str.replace_from]. simpl in Hk.
    destruct k as [|k]; [| apply IH; lia].
    rewrite <- append_cons, startswith_before_newline by done.
    destruct (Str.startswith old (String c s)) eqn:Hs.
    + apply startswith_length in Hs. simpl in Hs.
      rewrite IH by lia. by rewrite append_assoc.
    + by rewrite append_cons, IH by lia.
Qed.

End Lines.

(** ** One line *)

Section OneLine.

Lemma old_prefix_no_newline : Str.no_newline old_prefix = true.
Proof. reflexivity. Qed.

Lemma old_prefix_not_empty : old_prefix ≠ EmptyString.
Proof. discriminate. Qed.

Lemma new_prefix_no_newline : Str.no_newline new_prefix = true.
Proof. reflexivity. Qed.

Lemma replace_old_prefix (s : string) :
  Str.replace old_prefix new_prefix s = Str.replace_from 0 old_prefix new_prefix s.
Proof. reflexivity. Qed.

Lemma rewrite_line_match (rest : string) :
  rewrite_line (old_prefix +:+ rest) =
  new_prefix +:+ Str.replace old_prefix new_prefix rest.
Proof.
  unfold rewrite_line. rewrite annot_pattern_match_startswith, startswith_app.
  rewrite !replace_old_prefix. apply replace_from_occurrence.
Qed.

Lemma rewrite_line_no_match (line : string) :
  annot_pattern_match line = false → rewrite_line line = line.
Proof. unfold rewrite_line. by intros ->. Qed.

Lemma rewrite_line_cases (line : string) :
  (∃ rest, line = old_prefix +:+ rest ∧ annot_pattern_match line = true ∧
           rewrite_line line = new_prefix +:+ Str.replace old_prefix new_prefix rest) ∨
  (annot_pattern_match line = false ∧ rewrite_line line = line).
Proof.
  destruct (annot_pattern_match line) eqn:Hm.
  - left. pose proof Hm as Hm'. rewrite annot_pattern_match_startswith in Hm'.
    apply startswith_true in Hm' as [rest ->]. exists rest.
    by rewrite rewrite_line_match.
  - right. by rewrite rewrite_line_no_match.
Qed.

(** A rewritten line starts with the new prefix, which the pattern does
    not match. *)
Lemma new_prefix_no_match (s : string) : annot_pattern_match (new_prefix +:+ s) = false.
Proof. rewrite annot_pattern_match_startswith. reflexivity. Qed.

Lemma rewrite_line_settled (line : string) :
  annot_pattern_match (rewrite_line line) = false.
Proof.
  destruct (rewrite_line_cases line) as [(rest & _ & _ & ->)|[Hm ->]];
    [apply new_prefix_no_match | done].
Qed.

Lemma rewrite_line_no_newline (body : string) :
  Str.no_newline body = true → Str.no_newline (rewrite_line body) = true.
Proof.
  intros Hb. unfold rewrite_line. destruct (annot_pattern_match body); [| done].
  rewrite replace_old_prefix.
  apply replace_from_no_newline; [apply new_prefix_no_newline | done].
Qed.

Lemma rewrite_line_terminated (body : string) :
  rewrite_line (body +:+ EOL) = rewrite_line body +:+ EOL.
Proof.
  unfold rewrite_line.
  rewrite (annot_pattern_match_startswith body),
    (annot_pattern_match_startswith (body +:+ EOL)).
  rewrite startswith_before_newline
    by (apply old_prefix_no_newline || apply old_prefix_not_empty).
  destruct (Str.startswith old_prefix body); [| done].
  rewrite !replace_old_prefix.
  apply replace_from_before_newline;
    [apply old_prefix_no_newline | apply old_prefix_not_empty | lia].
Qed.

Lemma rewrite_line_not_empty (body : string) : body ≠ EmptyString → rewrite_line body ≠ EmptyString.
Proof.
  intros Hne. destruct (rewrite_line_cases body) as [(rest & _ & _ & ->)|[_ ->]]; done.
Qed.

Lemma rewrite_file_lines (ls : list string) :
  file_lines ls → file_lines (map rewrite_line ls).
Proof.
  induction 1 as [|body Hb Hne|body ls Hb Hls IH]; simpl.
  - constructor.
  - apply file_lines_last; [by apply rewrite_line_no_newline | by apply rewrite_line_not_empty].
  - rewrite rewrite_line_terminated.
    apply file_lines_cons; [by apply rewrite_line_no_newline | done].
Qed.

(** The lines of the rewritten file are the rewritten lines. *)
Lemma readlines_rewrite_content (c : string) :
  Str.readlines (rewrite_content c) = map rewrite_line (Str.readlines c).
Proof.
  unfold rewrite_content. apply readlines_join, rewrite_file_lines, readlines_file_lines.
Qed.

Lemma rewrite_content_settled (c : string) : has_matching_line (rewrite_content c) = false.
Proof.
  unfold has_matching_line. rewrite readlines_rewrite_content.
  induction (Str.readlines c) as [|l ls IH]; [done |].
  simpl. by rewrite rewrite_line_settled, IH.
Qed.

Lemma rewrite_content_unchanged (c : string) :
  has_matching_line c = false → rewrite_content c = c.
Proof.
  unfold has_matching_line, rewrite_content. intros Hno.
  rewrite <- (join_readlines c) at 2.
  induction (Str.readlines c) as [|l ls IH]; [done |].
  simpl in *. apply orb_false_iff in Hno as [Hl Hls].
  by rewrite rewrite_line_no_match, IH.
Qed.

Lemma rewrite_content_idempotent (c : string) :
  rewrite_content (rewrite_content c) = rewrite_content c.
Proof. apply rewrite_content_unchanged, rewrite_content_settled. Qed.

End OneLine.

(** ** The walk *)

Section Walk.

Lemma for_each_inv {A} (P : world → Prop) (body : A → M unit) (xs : list A) (w : world) :
  (∀ x w, x ∈ xs → P w → P (snd (body x w))) →
  P w → P (snd (for_each xs body w)).
Proof.
  revert w. induction xs as [|x xs IH]; intros w Hbody Hw; [done |].
  simpl. unfold bind.
  pose proof (Hbody x w (list_elem_of_here _ _) Hw) as Hx.
  destruct (body x w) as [[[]|e|] w1]; simpl in *; [| done | done].
  apply IH; [| done]. intros y w2 Hy. apply Hbody. by apply list_elem_of_further.
Qed.

Lemma for_each_ret {A} (P : world → Prop) (body : A → M unit) (xs : list A)
    (w w' : world) :
  (∀ x w w', x ∈ xs → P w → body x w = (Ret tt, w') → P w') →
  P w → for_each xs body w = (Ret tt, w') → P w'.
Proof.
  revert w. induction xs as [|x xs IH]; intros w Hbody Hw Hrun.
  - by injection Hrun as <-.
  - simpl in Hrun. unfold bind in Hrun.
    destruct (body x w) as [[[]|e|] w1] eqn:Hx; [| done | done].
    eapply IH; [| | exact Hrun].
    + intros y w2 w3 Hy. apply Hbody. by apply list_elem_of_further.
    + eapply Hbody; [apply list_elem_of_here | exact Hw | exact Hx].
Qed.

Lemma os_listdir_run (dir : path) (w : world) :
  os_listdir dir w =
  let w0 := set_clock (S (clock w)) w in
  if fault_now w then (Raise (OSError AtListdir), w0)
  else match dir_view (fs w !! dir) with
       | Some names => (Ret names, w0)
       | None => (Raise (OSError AtListdir), w0)
       end.
Proof.
  unfold os_listdir, bind. rewrite tick_run. destruct (fault_now w); [done |].
  simpl. by destruct (fs w !! dir) as [[c|names]|].
Qed.

Lemma dispatched_from_here (dir : path) (file : string) :
  java_pattern_match file = true → dispatched_from dir (os_path_join dir file).
Proof. intros Hj. exists [], file. by split_and!. Qed.

Lemma dispatched_from_below (dir : path) (file : string) (g : path) :
  ignore_pattern_match file = false →
  dispatched_from (os_path_join dir file) g → dispatched_from dir g.
Proof.
  intros Hi (names & f & -> & Hnames & Hf). exists (file :: names), f.
  split_and!; [| by constructor | done].
  unfold os_path_join. by rewrite <- app_assoc.
Qed.

(** Whatever holds before the walk and is kept by [process_source] on the
    files the walk can reach, and does not depend on the clock, holds after
    the walk, however it ends. *)
Lemma process_dir_inv (P : world → Prop) (fuel : nat) :
  (∀ w n, P w → P (set_clock n w)) →
  ∀ (dir : path) (w : world),
    (∀ f w, dispatched_from dir f → P w → P (snd (process_source f w))) →
    P w → P (snd (process_dir fuel dir w)).
Proof.
  intros Hclock. induction fuel as [|fuel IH]; intros dir w Hsrc Hw; [done |].
  simpl. unfold bind. rewrite os_listdir_run.
  destruct (fault_now w); [by apply Hclock |].
  destruct (dir_view (fs w !! dir)) as [names|]; [| by apply Hclock].
  apply for_each_inv; [| by apply Hclock].
  intros file w1 _ Hw1. unfold visit, bind, os_path_isdir.
  destruct (fs w1 !! os_path_join dir file) as [[c|ns]|].
  - destruct (java_pattern_match file) eqn:Hj; [| done].
    by apply Hsrc; [apply dispatched_from_here |].
  - destruct (ignore_pattern_match file) eqn:Hi; [done |]. simpl.
    apply IH; [| done]. intros f w2 Hf. apply Hsrc. by eapply dispatched_from_below.
  - destruct (java_pattern_match file) eqn:Hj; [| done].
    by apply Hsrc; [apply dispatched_from_here |].
Qed.

(** The same for what [process_source] keeps when it returns, after a walk
    that returns. *)
Lemma process_dir_ret (P : world → Prop) (fuel : nat) :
  (∀ w n, P w → P (set_clock n w)) →
  (∀ f w w', P w → process_source f w = (Ret tt, w') → P w') →
  ∀ (dir : path) (w w' : world),
    P w → process_dir fuel dir w = (Ret tt, w') → P w'.
Proof.
  intros Hclock Hsrc. induction fuel as [|fuel IH]; intros dir w w' Hw Hrun; [done |].
  simpl in Hrun. unfold bind in Hrun. rewrite os_listdir_run in Hrun.
  destruct (fault_now w); [done |].
  destruct (dir_view (fs w !! dir)) as [names|]; [| done].
  simpl in Hrun. eapply for_each_ret; [| | exact Hrun]; [| by apply Hclock].
  intros file w1 w2 _ Hw1. unfold visit, bind, os_path_isdir.
  destruct (fs w1 !! os_path_join dir file) as [[c|ns]|].
  - destruct (java_pattern_match file); [by apply Hsrc | by intros [= <-]].
  - destruct (ignore_pattern_match file); simpl; [by intros [= <-] | by apply IH].
  - destruct (java_pattern_match file); [by apply Hsrc | by intros [= <-]].
Qed.

End Walk.

Section WalkFacts.

Lemma process_source_other (f g : path) (w : world) :
  f ≠ g → fs (snd (process_source f w)) !! g = fs w !! g.
Proof.
  intros Hne.
  destruct (process_source_fs f w) as [->|(c & c' & _ & _ & ->)]; [done |].
  by apply lookup_insert_ne.
Qed.

Lemma process_source_settled (f g : path) (c : string) (w : world) :
  fs w !! g = Some (File c) → has_matching_line c = false →
  fs (snd (process_source f w)) !! g = Some (File c).
Proof.
  intros Hg Hno. destruct (decide (f = g)) as [->|Hne];
    [| by rewrite process_source_other].
  destruct (process_source_fs g w) as [->|(c0 & c' & Hc0 & Hm & _)]; [done | congruence].
Qed.

Lemma process_source_same_dirs (f : path) (w : world) :
  same_dirs (fs w) (fs (snd (process_source f w))).
Proof.
  intros g.
  destruct (process_source_fs f w) as [->|(c & c' & Hc & _ & ->)]; [done |].
  destruct (decide (f = g)) as [->|Hne].
  - by rewrite lookup_insert_eq, Hc.
  - by rewrite lookup_insert_ne.
Qed.

Lemma process_source_faults (f : path) (w : world) :
  faults (snd (process_source f w)) = faults w.
Proof.
  destruct (process_source f w) as [r w'] eqn:Hrun.
  by apply process_source_spec in Hrun as (? & _).
Qed.

Lemma not_dispatched_other (dir f g : path) :
  ¬ dispatched_from dir g → dispatched_from dir f → f ≠ g.
Proof. by intros Hg Hf ->. Qed.

(** The walk changes no path it cannot reach. *)
Lemma process_dir_frame (fuel : nat) (dir g : path) (w : world) :
  ¬ dispatched_from dir g → fs (snd (process_dir fuel dir w)) !! g = fs w !! g.
Proof.
  intros Hg. apply (process_dir_inv (λ w', fs w' !! g = fs w !! g)); [done | | done].
  intros f w1 Hf <-. apply process_source_other. by eapply not_dispatched_other.
Qed.

(** The walk changes no file without a matching line. *)
Lemma process_dir_settled (fuel : nat) (dir g : path) (c : string) (w : world) :
  fs w !! g = Some (File c) → has_matching_line c = false →
  fs (snd (process_dir fuel dir w)) !! g = Some (File c).
Proof.
  intros Hg Hno.
  apply (process_dir_inv (λ w', fs w' !! g = Some (File c))); [done | | done].
  intros f w1 _ Hw1. by apply process_source_settled.
Qed.

Lemma process_dir_same_dirs (fuel : nat) (dir : path) (w : world) :
  same_dirs (fs w) (fs (snd (process_dir fuel dir w))).
Proof.
  apply (process_dir_inv (λ w', same_dirs (fs w) (fs w'))); [done | | done].
  intros f w1 _ Hw1 g. by rewrite process_source_same_dirs.
Qed.

Lemma process_dir_faults (fuel : nat) (dir : path) (w : world) :
  faults (snd (process_dir fuel dir w)) = faults w.
Proof.
  apply (process_dir_inv (λ w', faults w' = faults w)); [done | | done].
  intros f w1 _ <-. apply process_source_faults.
Qed.

(** A walk that returns leaves no scratch file. *)
Lemma process_dir_tmps (fuel : nat) (dir : path) (w w' : world) :
  process_dir fuel dir w = (Ret tt, w') → tmps w' = tmps w.
Proof.
  apply (process_dir_ret (λ w', tmps w' = tmps w)); [done | | done].
  intros f w1 w2 <- Hrun. by apply process_source_spec in Hrun as (_ & _ & [? _] & _).
Qed.

Lemma depth_le_same_dirs (m m' : gmap path entry) (n : nat) (dir : path) :
  same_dirs m m' → depth_le m n dir → depth_le m' n dir.
Proof.
  intros Hsame. induction 1 as [n dir _ IH]. constructor.
  intros names file. rewrite !Hsame. apply IH.
Qed.

Lemma for_each_good {A} (good : outcome unit → Prop) (P : world → Prop)
    (body : A → M unit) (xs : list A) (w : world) :
  good (Ret tt) →
  (∀ x w, x ∈ xs → P w → good (fst (body x w)) ∧ P (snd (body x w))) →
  P w → good (fst (for_each xs body w)).
Proof.
  intros Hret. revert w. induction xs as [|x xs IH]; intros w Hbody Hw; [done |].
  simpl. unfold bind.
  destruct (Hbody x w (list_elem_of_here _ _) Hw) as [Hg Hp].
  destruct (body x w) as [[[]|e|] w1]; simpl in *; [| done | done].
  apply IH; [| done]. intros y w2 Hy. apply Hbody. by apply list_elem_of_further.
Qed.

(** Fuel beyond the depth of the tree is never used up, and where no call
    fails the walk of a directory returns. *)
Lemma process_dir_completes (fuel : nat) :
  ∀ (dir : path) (w : world),
    depth_le (fs w) fuel dir →
    fst (process_dir fuel dir w) ≠ OutOfFuel ∧
    (faults w = [] → is_Some (dir_view (fs w !! dir)) →
     fst (process_dir fuel dir w) = Ret tt).
Proof.
  induction fuel as [|fuel IH]; intros dir w Hdepth; [inversion Hdepth |].
  inversion Hdepth as [n dir' Hsub]; subst.
  simpl. unfold bind. rewrite os_listdir_run.
  destruct (fault_now w) eqn:Hf.
  { split; [done | no_fault]. }
  destruct (dir_view (fs w !! dir)) as [names|] eqn:Hdir;
    [| split; [done | by intros _ [? [=]]]].
  set (w0 := set_clock (S (clock w)) w).
  apply (for_each_good
           (λ r, r ≠ OutOfFuel ∧
                 (faults w = [] → is_Some (Some names) → r = Ret tt))
           (λ w', same_dirs (fs w) (fs w') ∧ faults w' = faults w));
    [done | | done].
  intros file w1 Hin [Hsame Hfl]. unfold visit, bind, os_path_isdir.
  destruct (fs w1 !! os_path_join dir file) as [[c|ns]|] eqn:Hentry.
  - destruct (java_pattern_match file); [| done].
    destruct (process_source (os_path_join dir file) w1) as [r w2] eqn:Hrun.
    pose proof (process_source_same_dirs (os_path_join dir file) w1) as Hs2.
    pose proof (process_source_faults (os_path_join dir file) w1) as Hf2.
    rewrite Hrun in Hs2, Hf2. simpl in *.
    apply process_source_spec in Hrun as (_ & _ & Hr & Htot).
    split; [split |].
    + by destruct r.
    + intros Hnil _. apply Htot. congruence.
    + split; [| congruence]. intros g. by rewrite Hs2.
  - destruct (ignore_pattern_match file) eqn:Hi; [done |]. simpl.
    assert (depth_le (fs w1) fuel (os_path_join dir file)) as Hd1.
    { apply (depth_le_same_dirs (fs w)); [done |].
      apply (Hsub names); [done | done | done |].
      rewrite <- Hsame, Hentry. by eexists. }
    destruct (IH _ _ Hd1) as [Hfuel Htot].
    pose proof (process_dir_same_dirs fuel (os_path_join dir file) w1) as Hs2.
    pose proof (process_dir_faults fuel (os_path_join dir file) w1) as Hf2.
    destruct (process_dir fuel (os_path_join dir file) w1) as [r w2]. simpl in *.
    split; [split |].
    + done.
    + intros Hnil _. apply Htot; [congruence |]. rewrite Hentry. by eexists.
    + split; [| congruence]. intros g. by rewrite Hs2.
  - destruct (java_pattern_match file); [| done].
    destruct (process_source (os_path_join dir file) w1) as [r w2] eqn:Hrun.
    pose proof (process_source_same_dirs (os_path_join dir file) w1) as Hs2.
    pose proof (process_source_faults (os_path_join dir file) w1) as Hf2.
    rewrite Hrun in Hs2, Hf2. simpl in *.
    apply process_source_spec in Hrun as (_ & _ & Hr & Htot).
    split; [split |].
    + by destruct r.
    + intros Hnil _. apply Htot. congruence.
    + split; [| congruence]. intros g. by rewrite Hs2.
Qed.

End WalkFacts.

Section Reach.

Lemma process_dir_outcome (good : outcome unit → Prop) (fuel : nat) :
  good (Ret tt) → good OutOfFuel → good (Raise (OSError AtListdir)) →
  (∀ f w, good (fst (process_source f w))) →
  ∀ (dir : path) (w : world), good (fst (process_dir fuel dir w)).
Proof.
  intros Hret Hfuel Hlist Hsrc. induction fuel as [|fuel IH]; intros dir w; [done |].
  simpl. unfold bind. rewrite os_listdir_run.
  destruct (fault_now w); [done |].
  destruct (dir_view (fs w !! dir)) as [names|]; [| done].
  apply (for_each_good good (λ _, True)); [done | | done].
  intros file w1 _ _. split; [| done]. unfold visit, bind, os_path_isdir.
  destruct (fs w1 !! os_path_join dir file) as [[c|ns]|].
  - destruct (java_pattern_match file); [apply Hsrc | done].
  - destruct (ignore_pattern_match file); simpl; [done | apply IH].
  - destruct (java_pattern_match file); [apply Hsrc | done].
Qed.

Lemma visit_settled (fuel : nat) (dir : path) (file : string) (g : path) (c : string)
    (w : world) :
  fs w !! g = Some (File c) → has_matching_line c = false →
  fs (snd (visit (process_dir fuel) dir file w)) !! g = Some (File c).
Proof.
  intros Hg Hno. unfold visit, bind, os_path_isdir.
  destruct (fs w !! os_path_join dir file) as [[c'|ns]|].
  - destruct (java_pattern_match file); [by apply process_source_settled | done].
  - destruct (ignore_pattern_match file); [done |]. by apply process_dir_settled.
  - destruct (java_pattern_match file); [by apply process_source_settled | done].
Qed.

Lemma for_each_visit_settled (fuel : nat) (dir : path) (files : list string) (g : path)
    (c : string) (w : world) :
  fs w !! g = Some (File c) → has_matching_line c = false →
  fs (snd (for_each files (visit (process_dir fuel) dir) w)) !! g = Some (File c).
Proof.
  intros Hg Hno. apply (for_each_inv (λ w', fs w' !! g = Some (File c))); [| done].
  intros file w1 _ Hw1. by apply visit_settled.
Qed.

Lemma not_dispatched_last (dir g : path) :
  (∀ name, last g = Some name → java_pattern_match name = false) →
  ¬ dispatched_from dir g.
Proof.
  intros Hlast (names & file & -> & _ & Hj).
  rewrite (Hlast file) in Hj; [done |]. by rewrite !app_assoc, last_snoc.
Qed.

Lemma not_dispatched_ignored (root pre post : path) (d : string) :
  ignore_pattern_match d = true → post ≠ [] →
  ¬ dispatched_from root (root ++ pre ++ d :: post).
Proof.
  intros Hd Hpost (names & file & Heq & Hnames & _).
  apply app_inv_head in Heq.
  destruct (exists_last Hpost) as (post' & x & ->).
  change (pre ++ d :: post' ++ [x]) with (pre ++ (d :: post') ++ [x]) in Heq.
  rewrite app_assoc in Heq. apply app_inj_tail in Heq as [<- _].
  apply Forall_app in Hnames as [_ Hd']. apply Forall_cons in Hd' as [Hd' _].
  congruence.
Qed.

Lemma line_rewritten_rewrite_line (l : string) : line_rewritten l (rewrite_line l).
Proof.
  unfold line_rewritten.
  destruct (rewrite_line_cases l) as [(rest & -> & _ & ->)|[Hm ->]].
  - rewrite strip_prefix_app. split; [done |]. intros Hno. f_equal.
    rewrite replace_old_prefix. by apply replace_from_absent.
  - rewrite annot_pattern_match_startswith in Hm.
    by rewrite (startswith_false_strip _ _ Hm).
Qed.

End Reach.

(** * The claims *)

Section FileClaims.

Lemma Forall2_line_rewritten (ls : list string) :
  Forall2 line_rewritten ls (map rewrite_line ls).
Proof.
  induction ls as [|l ls IH]; constructor; [apply line_rewritten_rewrite_line | done].
Qed.

(** C1, as stated, fails: in a matching line [str.replace] replaces every
    occurrence of the old prefix, so the remainder of the line
    [two_imports] is not kept verbatim. *)
Lemma C1_counterexample :
  let f := ["."; "A.java"] in
  let w := World {[ f := File two_imports ]} ∅ 0 [] in
  has_matching_line two_imports = true ∧
  fs (snd (process_source f w)) !! f =
    Some (File "import net.jcip.annotations.A; import net.jcip.annotations.B;") ∧
  Str.join_lines (map replace_prefix_once (Str.readlines two_imports)) =
    "import net.jcip.annotations.A; import org.apache.http.annotation.B;" ∧
  fs (snd (process_source f w)) !! f ≠
    Some (File (Str.join_lines (map replace_prefix_once (Str.readlines two_imports)))).
Proof. vm_compute. split_and!; [reflexivity | reflexivity | reflexivity | discriminate]. Qed.

(** C1 (amended). Where no call fails, processing a file with at least one
    matching line replaces the file by its rewritten lines, in their order
    and with no scratch file left: a line that does not start with the old
    prefix is kept verbatim; in a line that does, the prefix and every further
    occurrence of it are replaced, so that the remainder is kept verbatim when
    it has no occurrence of its own. *)
Theorem C1_matching_lines_rewritten (w : world) (f : path) (c : string) :
  faults w = [] →
  fs w !! f = Some (File c) →
  has_matching_line c = true →
  ∃ (w' : world) (c' : string),
    process_source f w = (Ret tt, w') ∧
    fs w' = <[f := File c']> (fs w) ∧
    tmps w' = tmps w ∧
    Forall2 line_rewritten (Str.readlines c) (Str.readlines c').
Proof.
  intros Hnil Hf Hm. destruct (process_source f w) as [r w'] eqn:Hrun.
  apply process_source_spec in Hrun as (_ & _ & Hr & Htot).
  destruct (Htot Hnil) as [-> Hfs]. rewrite Hf, Hm in Hfs. destruct Hr as [Htm _].
  exists w', (rewrite_content c). split_and!; [done | done | done |].
  rewrite readlines_rewrite_content. apply Forall2_line_rewritten.
Qed.

Lemma C1_matching_lines_rewritten_witness :
  ∃ (w' : world) (c' : string),
    process_source ["."; "A.java"] sample_world = (Ret tt, w') ∧
    fs w' = <[ ["."; "A.java"] := File c']> (fs sample_world) ∧
    tmps w' = tmps sample_world ∧
    Forall2 line_rewritten
      (Str.readlines ("package x;" +:+ eol +:+
                      "import org.apache.http.annotation.ThreadSafe;" +:+ eol +:+
                      "class A {}"))
      (Str.readlines c').
Proof.
  apply (C1_matching_lines_rewritten sample_world ["."; "A.java"]);
    [reflexivity | reflexivity | vm_compute; reflexivity].
Defined.

(** C7. Where no call fails, processing a file a second time changes
    nothing: after the first pass the file holds the rewritten lines, none of
    which the pattern matches, and rewriting them again gives the same
    content. *)
Theorem C7_rewrite_idempotent (w : world) (f : path) (c : string) :
  faults w = [] →
  fs w !! f = Some (File c) →
  ∃ (w1 w2 : world),
    process_source f w = (Ret tt, w1) ∧
    process_source f w1 = (Ret tt, w2) ∧
    fs w1 !! f = Some (File (rewrite_content c)) ∧
    fs w2 = fs w1 ∧
    has_matching_line (rewrite_content c) = false ∧
    rewrite_content (rewrite_content c) = rewrite_content c.
Proof.
  intros Hnil Hf.
  destruct (process_source f w) as [r1 w1] eqn:Hrun1.
  destruct (process_source_spec _ _ _ _ Hrun1) as (Hfl1 & _ & _ & Htot1).
  destruct (Htot1 Hnil) as [-> Hfs1]. rewrite Hf in Hfs1.
  assert (fs w1 !! f = Some (File (rewrite_content c))) as Hf1.
  { rewrite Hfs1. destruct (has_matching_line c) eqn:Hm.
    - apply lookup_insert_eq.
    - by rewrite rewrite_content_unchanged. }
  destruct (process_source f w1) as [r2 w2] eqn:Hrun2.
  destruct (process_source_spec _ _ _ _ Hrun2) as (_ & _ & _ & Htot2).
  destruct Htot2 as [-> Hfs2]; [congruence |].
  rewrite Hf1, rewrite_content_settled in Hfs2.
  exists w1, w2. split_and!; [done | done | done | done | |].
  - apply rewrite_content_settled.
  - apply rewrite_content_idempotent.
Qed.

Lemma C7_rewrite_idempotent_witness :
  ∃ (w1 w2 : world),
    process_source ["."; "README"] sample_world = (Ret tt, w1) ∧
    process_source ["."; "README"] w1 = (Ret tt, w2) ∧
    fs w1 !! ["."; "README"] =
      Some (File (rewrite_content "import org.apache.http.annotation.ThreadSafe;")) ∧
    fs w2 = fs w1 ∧
    has_matching_line
      (rewrite_content "import org.apache.http.annotation.ThreadSafe;") = false ∧
    rewrite_content (rewrite_content "import org.apache.http.annotation.ThreadSafe;") =
    rewrite_content "import org.apache.http.annotation.ThreadSafe;".
Proof.
  apply (C7_rewrite_idempotent sample_world ["."; "README"]); reflexivity.
Defined.

(** C8. The line [import org.apache.http.annotation.ThreadSafe;] is
    rewritten to [import net.jcip.annotations.ThreadSafe;], and so is a file
    with that content where no call fails; a file whose content is
    [import java.util.List;] is left as it is. *)
Theorem C8_scenarios (w : world) (f g : path) :
  faults w = [] →
  fs w !! f = Some (File "import org.apache.http.annotation.ThreadSafe;") →
  fs w !! g = Some (File "import java.util.List;") →
  rewrite_line "import org.apache.http.annotation.ThreadSafe;" =
    "import net.jcip.annotations.ThreadSafe;" ∧
  fs (snd (process_source f w)) =
    <[f := File "import net.jcip.annotations.ThreadSafe;"]> (fs w) ∧
  fs (snd (process_source g w)) = fs w.
Proof.
  intros Hnil Hf Hg. split; [reflexivity |]. split.
  - destruct (process_source f w) as [r w'] eqn:Hrun.
    apply process_source_spec in Hrun as (_ & _ & _ & Htot).
    destruct (Htot Hnil) as [_ Hfs]. by rewrite Hf in Hfs.
  - destruct (process_source g w) as [r w'] eqn:Hrun.
    apply process_source_spec in Hrun as (_ & _ & _ & Htot).
    destruct (Htot Hnil) as [_ Hfs]. by rewrite Hg in Hfs.
Qed.

Lemma C8_scenarios_witness :
  let w := World (<[ ["."; "L.java"] := File "import java.util.List;" ]> two_files) ∅ 0 [] in
  rewrite_line "import org.apache.http.annotation.ThreadSafe;" =
    "import net.jcip.annotations.ThreadSafe;" ∧
  fs (snd (process_source ["."; "A.java"] w)) =
    <[ ["."; "A.java"] := File "import net.jcip.annotations.ThreadSafe;"]> (fs w) ∧
  fs (snd (process_source ["."; "L.java"] w)) = fs w.
Proof.
  apply (C8_scenarios
           (World (<[ ["."; "L.java"] := File "import java.util.List;" ]> two_files) ∅ 0 [])
           ["."; "A.java"] ["."; "L.java"]); reflexivity.
Defined.

End FileClaims.

Section ErrorClaims.

Lemma process_source_handler (f : path) (w w0 w1 : world) (t : nat) (e : exn) :
  tempfile_mkstemp w = (Ret t, w0) →
  process_source_body t t f w0 = (Raise e, w1) →
  process_source f w = os_remove AtCleanup t w1 ∧
  raised_in_try e = true ∧
  tmps w !! t = None ∧ ∃ acc, tmps w1 = <[t := acc]> (tmps w).
Proof.
  intros Hmk Hbody. split.
  { unfold process_source, bind. rewrite Hmk. unfold try_except. by rewrite Hbody. }
  rewrite mkstemp_run in Hmk. destruct (fault_now w); [done |].
  injection Hmk as <- <-.
  apply process_source_body_spec in Hbody as (_ & _ & (He & _ & acc & Htm) & _);
    [| apply lookup_insert_eq].
  simpl in *. split_and!; [done | apply not_elem_of_dom, is_fresh |].
  exists acc. by rewrite Htm, insert_insert_eq.
Qed.

(** What the except clause makes of an exception of the [try] body. *)
Lemma process_source_swallows (f : path) (w w0 w1 : world) (t : nat) (e : exn) :
  tempfile_mkstemp w = (Ret t, w0) →
  process_source_body t t f w0 = (Raise e, w1) →
  ∃ w2,
    process_source f w =
      (if fault_now w1 then Raise (OSError AtCleanup) else Ret tt, w2) ∧
    if fault_now w1
    then ∃ acc, tmps w !! t = None ∧ tmps w2 = <[t := acc]> (tmps w)
    else tmps w2 = tmps w.
Proof.
  intros Hmk Hbody.
  destruct (process_source_handler _ _ _ _ _ _ Hmk Hbody)
    as (-> & _ & Hfresh & acc & Htm).
  rewrite os_remove_run by (rewrite Htm, lookup_insert_eq; eauto).
  destruct (fault_now w1); eexists; (split; [reflexivity |]); simpl.
  - by exists acc.
  - by rewrite Htm, delete_insert_id.
Qed.

Lemma visit_file (rec : path → M unit) (dir : path) (file : string) (w : world) :
  dir_view (fs w !! os_path_join dir file) = None →
  visit rec dir file w =
  if java_pattern_match file then process_source (os_path_join dir file) w else (Ret tt, w).
Proof.
  intros Hfile. unfold visit, bind, os_path_isdir.
  destruct (fs w !! os_path_join dir file) as [[c|ns]|]; [| done |];
    by destruct (java_pattern_match file).
Qed.

Lemma visit_dir (rec : path → M unit) (dir : path) (file : string) (names : list string)
    (w : world) :
  fs w !! os_path_join dir file = Some (Dir names) →
  visit rec dir file w =
  if ignore_pattern_match file then (Ret tt, w) else rec (os_path_join dir file) w.
Proof.
  intros Hdir. unfold visit, bind, os_path_isdir. rewrite Hdir.
  by destruct (ignore_pattern_match file).
Qed.

(** The loop of [process_dir] after [process_source] has ended on the file
    it is at. *)
Lemma for_each_visit_file (rec : path → M unit) (dir : path) (file : string)
    (rest : list string) (w w2 : world) (r : outcome unit) :
  dir_view (fs w !! os_path_join dir file) = None →
  java_pattern_match file = true →
  process_source (os_path_join dir file) w = (r, w2) →
  for_each (file :: rest) (visit rec dir) w =
  match r with
  | Ret _ => for_each rest (visit rec dir) w2
  | Raise e => (Raise e, w2)
  | OutOfFuel => (OutOfFuel, w2)
  end.
Proof.
  intros Hfile Hjava Hrun. simpl. unfold bind.
  rewrite visit_file, Hjava, Hrun by done. by destruct r.
Qed.

Lemma process_source_raises (g : path) (u : world) (e : exn) :
  fst (process_source g u) = Raise e →
  e = OSError AtMkstemp ∨ e = OSError AtCleanup.
Proof.
  destruct (process_source g u) as [r u'] eqn:Hg.
  apply process_source_spec in Hg as (_ & _ & Hr & _). simpl. intros ->.
  destruct Hr as [_ [[-> _]|[-> _]]]; auto.
Qed.

(** C2, as stated, fails. In [torn_move_world] the rewrite of [A.java]
    reaches [shutil.move], which fails after its copy has written 10
    characters over the original: [process_source] returns normally and
    [A.java] holds neither what it held before nor the rewritten text, but
    the first 10 characters of the latter. In [failing_cleanup_world] the
    call of [open] fails and so does the [os.remove] of the except clause:
    the temporary file is not deleted. *)
Lemma C2_counterexample :
  let f := ["."; "A.java"] in
  (fs torn_move_world !! f =
     Some (File "import org.apache.http.annotation.ThreadSafe;") ∧
   rewrite_content "import org.apache.http.annotation.ThreadSafe;" =
     "import net.jcip.annotations.ThreadSafe;" ∧
   fst (process_source f torn_move_world) = Ret tt ∧
   fs (snd (process_source f torn_move_world)) !! f = Some (File "import net")) ∧
  (let w := set_clock 1 failing_cleanup_world in
   fst (process_source f w) = Raise (OSError AtCleanup) ∧
   tmps w = ∅ ∧
   tmps (snd (process_source f w)) !! 0 = Some EmptyString ∧
   fs (snd (process_source f w)) = fs w).
Proof. vm_compute. by split_and!. Qed.

(** C2 (amended). What [process_source] leaves of a file and of its
    temporary file, whatever calls fail. The temporary file is gone whenever
    [process_source] returns, and also when [mkstemp] raised; it stays, and
    is the one file added, when the [os.remove] of the except clause raises.
    The original is as it was, or it holds its rewritten lines as a whole,
    or, when a [shutil.move] that fails has started its copy, a prefix of
    its rewritten lines; with no such move it is one of the first two.
    Where no call fails [process_source] returns, and the file holds its
    rewritten lines if one of its lines matches and is as it was if none
    does. *)
Theorem C2_whole_or_untouched (f : path) (w : world) (r : outcome unit) (w' : world) :
  process_source f w = (r, w') →
  (r = Ret tt ∧ tmps w' = tmps w ∨
   r = Raise (OSError AtMkstemp) ∧ tmps w' = tmps w ∨
   r = Raise (OSError AtCleanup) ∧
     ∃ t acc, tmps w !! t = None ∧ tmps w' = <[t := acc]> (tmps w)) ∧
  (fs w' = fs w ∨ rewritten f (fs w) (fs w') ∨ torn_file (torn w) f (fs w) (fs w')) ∧
  (torn w = ∅ → fs w' = fs w ∨ rewritten f (fs w) (fs w')) ∧
  (r ≠ Ret tt → fs w' = fs w ∨ torn_file (torn w) f (fs w) (fs w')) ∧
  (faults w = [] →
   r = Ret tt ∧
   fs w' = match fs w !! f with
           | Some (File c) =>
               if has_matching_line c
               then <[f := File (rewrite_content c)]> (fs w) else fs w
           | _ => fs w
           end).
Proof.
  intros Hrun.
  pose proof (process_source_untorn f w) as Hun. rewrite Hrun in Hun. simpl in Hun.
  apply process_source_spec in Hrun as (_ & _ & Hr & Htot).
  split_and!; [| | exact Hun | | exact Htot].
  - destruct r as [[]|e|]; [| | done].
    + left. by destruct Hr as [? _].
    + right. destruct Hr as [_ [[-> ?]|[-> ?]]]; [by left | by right].
  - destruct r as [[]|e|]; [| | done].
    + by destruct Hr as [_ ?].
    + destruct Hr as [[?|?] _]; [by left | right; by right].
  - intros Hne. destruct r as [[]|e|]; [done | | done]. by destruct Hr as [? _].
Qed.

Lemma C2_whole_or_untouched_witness :
  let f := ["."; "A.java"] in
  let w := set_clock 1 failing_cleanup_world in
  fs (snd (process_source f w)) = fs w ∨
  rewritten f (fs w) (fs (snd (process_source f w))).
Proof.
  intros f w.
  destruct (C2_whole_or_untouched f w (fst (process_source f w))
              (snd (process_source f w))) as (_ & _ & Hfs & _);
    [by destruct (process_source f w) |].
  apply Hfs. reflexivity.
Defined.

(** C3, as stated, fails: the call of [open] on [A.java] raises inside
    the [try], and [process_source] returns all the same; the walk is not
    aborted, it goes on and rewrites [B.java]. *)
Lemma C3_counterexample :
  let f := ["."; "A.java"] in
  let w := set_clock 1 failing_open_world in
  fst ((let! t := tempfile_mkstemp in process_source_body t t f) w) =
    Raise (OSError AtOpen) ∧
  fst (process_source f w) = Ret tt ∧
  fst (main 1 failing_open_world) = Ret tt ∧
  fs (snd (main 1 failing_open_world)) !! ["."; "B.java"] =
    Some (File "import net.jcip.annotations.Immutable;").
Proof. vm_compute. by split_and!. Qed.

(** C3 (amended). An exception raised inside the [try] while a file is
    processed does not leave [process_source]: the except clause runs its
    [os.remove], and [process_source] ends as that call does; unless the
    call itself fails, [process_source] returns with the scratch file gone
    and the loop of [process_dir] goes on with the remaining names. A walk
    is aborted only by an exception of [os.listdir], of [mkstemp] or of
    that [os.remove]; and whatever the rest of a loop does, a file that was
    rewritten stays rewritten. *)
Theorem C3_exception_swallowed (f : path) (w w0 w1 : world) (t : nat) (e : exn) :
  tempfile_mkstemp w = (Ret t, w0) →
  process_source_body t t f w0 = (Raise e, w1) →
  (∃ w2,
      process_source f w =
        (if fault_now w1 then Raise (OSError AtCleanup) else Ret tt, w2) ∧
      (fault_now w1 = false →
       tmps w2 = tmps w ∧
       ∀ rec dir file rest,
         f = os_path_join dir file →
         dir_view (fs w !! f) = None →
         java_pattern_match file = true →
         for_each (file :: rest) (visit rec dir) w = for_each rest (visit rec dir) w2)) ∧
  (∀ fuel dir u e',
      fst (process_dir fuel dir u) = Raise e' →
      e' = OSError AtListdir ∨ e' = OSError AtMkstemp ∨ e' = OSError AtCleanup) ∧
  (∀ fuel dir files u g c,
      fs u !! g = Some (File (rewrite_content c)) →
      fs (snd (for_each files (visit (process_dir fuel) dir) u)) !! g =
        Some (File (rewrite_content c))).
Proof.
  intros Hmk Hbody.
  destruct (process_source_swallows _ _ _ _ _ _ Hmk Hbody) as (w2 & Hrun & Htm).
  split_and!.
  - exists w2. split; [exact Hrun |]. intros Hok. rewrite Hok in Hrun, Htm.
    split; [exact Htm |]. intros rec dir file rest -> Hfile Hjava.
    by rewrite (for_each_visit_file _ _ _ _ _ _ _ Hfile Hjava Hrun).
  - intros fuel dir u e'.
    apply (process_dir_outcome
             (λ r, r = Raise e' →
                   e' = OSError AtListdir ∨ e' = OSError AtMkstemp ∨ e' = OSError AtCleanup));
      [done | done | intros [= <-]; by left |].
    intros g u' Hg. right. by apply (process_source_raises g u').
  - intros fuel dir files u g c Hg.
    apply for_each_visit_settled; [done | apply rewrite_content_settled].
Qed.

Lemma C3_exception_swallowed_witness :
  fst (process_source ["."; "A.java"] (set_clock 1 failing_open_world)) = Ret tt.
Proof.
  pose (w := set_clock 1 failing_open_world).
  pose (w0 := snd (tempfile_mkstemp w)).
  pose (w1 := snd (process_source_body 0 0 ["."; "A.java"] w0)).
  destruct (C3_exception_swallowed ["."; "A.java"] w w0 w1 0 (OSError AtOpen))
    as [(w2 & Hrun & _) _]; [vm_compute; reflexivity | vm_compute; reflexivity |].
  fold w. rewrite Hrun. reflexivity.
Defined.

(** C4, as stated, fails: in [failing_cleanup_world] the call of [open] on
    [A.java] raises inside the [try], and the [os.remove] of the except
    clause fails too. [process_source] does not return normally: it raises
    to its caller, the temporary file is not removed, and the walk does not
    go on: [B.java] is left as it was. *)
Lemma C4_counterexample :
  let f := ["."; "A.java"] in
  let w := set_clock 1 failing_cleanup_world in
  fst ((let! t := tempfile_mkstemp in process_source_body t t f) w) =
    Raise (OSError AtOpen) ∧
  fst (process_source f w) = Raise (OSError AtCleanup) ∧
  tmps (snd (process_source f w)) !! 0 = Some EmptyString ∧
  fst (main 1 failing_cleanup_world) = Raise (OSError AtCleanup) ∧
  fs (snd (main 1 failing_cleanup_world)) !! ["."; "B.java"] =
    Some (File "import org.apache.http.annotation.Immutable;").
Proof. vm_compute. by split_and!. Qed.

(** C4 (amended). An exception raised inside the [try] never leaves
    [process_source]: it is one of a call made inside the [try], the except
    clause runs its [os.remove] in its place, and [process_source] ends as
    that call does. When the removal succeeds, [process_source] returns with
    the scratch file gone and the loop of [process_dir] goes on with the
    remaining names. When the removal fails, its exception leaves
    [process_source], the scratch file stays and the loop is aborted. No
    exception that [process_source] raises is one of the [try] body: it
    raises only from [mkstemp], before the [try], and from the [os.remove]
    of the except clause. *)
Theorem C4_try_body_never_raises (rec : path → M unit) (dir : path) (file : string)
    (rest : list string) (w w0 w1 : world) (t : nat) (e : exn) :
  dir_view (fs w !! os_path_join dir file) = None →
  java_pattern_match file = true →
  tempfile_mkstemp w = (Ret t, w0) →
  process_source_body t t (os_path_join dir file) w0 = (Raise e, w1) →
  raised_in_try e = true ∧
  (∃ w2,
      process_source (os_path_join dir file) w =
        (if fault_now w1 then Raise (OSError AtCleanup) else Ret tt, w2) ∧
      if fault_now w1
      then (∃ acc, tmps w !! t = None ∧ tmps w2 = <[t := acc]> (tmps w)) ∧
           for_each (file :: rest) (visit rec dir) w = (Raise (OSError AtCleanup), w2)
      else tmps w2 = tmps w ∧
           for_each (file :: rest) (visit rec dir) w = for_each rest (visit rec dir) w2) ∧
  (∀ g u e', fst (process_source g u) = Raise e' → raised_in_try e' = false) ∧
  (∀ g u, fst (process_source g u) ≠ OutOfFuel).
Proof.
  intros Hfile Hjava Hmk Hbody.
  destruct (process_source_handler _ _ _ _ _ _ Hmk Hbody) as (_ & He & _).
  destruct (process_source_swallows _ _ _ _ _ _ Hmk Hbody) as (w2 & Hrun & Htm).
  split; [exact He |]. split; [| split].
  - exists w2. split; [exact Hrun |].
    rewrite (for_each_visit_file rec _ _ rest _ _ _ Hfile Hjava Hrun).
    by destruct (fault_now w1).
  - intros g u e' Hg. by destruct (process_source_raises g u e' Hg) as [->| ->].
  - intros g u. destruct (process_source g u) as [r u'] eqn:Hg.
    apply process_source_spec in Hg as (_ & _ & Hr & _). simpl. by intros ->.
Qed.

Lemma C4_try_body_never_raises_witness :
  ∃ w2,
    process_source ["."; "A.java"] (set_clock 1 failing_open_world) = (Ret tt, w2) ∧
    tmps w2 = ∅ ∧
    for_each ["A.java"; "B.java"] (visit (process_dir 0) ["."])
      (set_clock 1 failing_open_world) =
    for_each ["B.java"] (visit (process_dir 0) ["."]) w2.
Proof.
  pose (w := set_clock 1 failing_open_world).
  pose (w0 := snd (tempfile_mkstemp w)).
  pose (w1 := snd (process_source_body 0 0 ["."; "A.java"] w0)).
  destruct (C4_try_body_never_raises (process_dir 0) ["."] "A.java" ["B.java"]
              w w0 w1 0 (OSError AtOpen)) as (_ & Hrun & _);
    [vm_compute; reflexivity .. |].
  exact Hrun.
Defined.

End ErrorClaims.

Section WalkClaims.

(** C5. The loop of [process_dir] does nothing at all for a directory whose
    name the ignore pattern matches: no call is made, whatever the directory
    holds. So a walk, however it ends, leaves every path below such a
    directory as it was; [target] is such a name. *)
Theorem C5_ignored_directory_skipped (fuel : nat) (rec : path → M unit)
    (root pre post : path) (d : string) (names : list string) (w : world) :
  ignore_pattern_match d = true →
  fs w !! (root ++ pre ++ [d]) = Some (Dir names) →
  post ≠ [] →
  visit rec (root ++ pre) d w = (Ret tt, w) ∧
  fs (snd (process_dir fuel root w)) !! (root ++ pre ++ d :: post) =
    fs w !! (root ++ pre ++ d :: post) ∧
  ignore_pattern_match "target" = true.
Proof.
  intros Hd Hdir Hpost. split_and!.
  - rewrite (visit_dir _ _ _ names), Hd; [done |].
    unfold os_path_join. by rewrite <- app_assoc.
  - by apply process_dir_frame, not_dispatched_ignored.
  - reflexivity.
Qed.

Lemma C5_ignored_directory_skipped_witness :
  visit (process_dir 3) ["."] "target" sample_world = (Ret tt, sample_world) ∧
  fs (snd (main 3 sample_world)) !! ["."; "target"; "C.java"] =
    Some (File "import org.apache.http.annotation.Immutable;").
Proof.
  destruct (C5_ignored_directory_skipped 3 (process_dir 3) ["."] [] ["C.java"]
              "target" ["C.java"] sample_world) as (Hvisit & Hframe & _);
    [reflexivity | reflexivity | discriminate |].
  split; [exact Hvisit |]. etransitivity; [exact Hframe | reflexivity].
Defined.

(** C6. A walk, however it ends, leaves a file as it was when the last
    component of its path does not match the file pattern, and when it has no
    matching line. A walk that returns leaves no scratch file; and a walk
    returns where no call fails, on a directory, with fuel for the depth of
    the tree. *)
Theorem C6_other_files_untouched (fuel : nat) (dir g : path) (c : string)
    (w : world) (r : outcome unit) (w' : world) :
  process_dir fuel dir w = (r, w') →
  fs w !! g = Some (File c) →
  (∀ name, last g = Some name → java_pattern_match name = false) ∨
    has_matching_line c = false →
  fs w' !! g = Some (File c) ∧
  (r = Ret tt → tmps w' = tmps w) ∧
  (faults w = [] → is_Some (dir_view (fs w !! dir)) → depth_le (fs w) fuel dir →
   r = Ret tt).
Proof.
  intros Hrun Hg Hcase. split_and!.
  - replace w' with (snd (process_dir fuel dir w)) by by rewrite Hrun.
    destruct Hcase as [Hname|Hno].
    + rewrite <- Hg. by apply process_dir_frame, not_dispatched_last.
    + by apply process_dir_settled.
  - intros ->. by eapply process_dir_tmps.
  - intros Hnil Hdir Hdepth.
    destruct (process_dir_completes fuel dir w Hdepth) as [_ Hret].
    rewrite Hrun in Hret. by apply Hret.
Qed.

Lemma sample_tree_depth : depth_le sample_tree 2 ["."].
Proof.
  constructor. intros names file Hdir Hin Hign Hsub.
  constructor. intros names' file' Hdir' Hin' Hign' Hsub'.
  exfalso. vm_compute in Hdir. injection Hdir as <-.
  apply list_elem_of_In in Hin. simpl in Hin.
  destruct Hin as [<-|[<-|[<-|[<-|[]]]]];
    try (vm_compute in Hsub; by destruct Hsub);
    try (vm_compute in Hign; discriminate).
  vm_compute in Hdir'. injection Hdir' as <-.
  apply list_elem_of_In in Hin'. simpl in Hin'.
  destruct Hin' as [<-|[]]. vm_compute in Hsub'. by destruct Hsub'.
Qed.

Lemma C6_other_files_untouched_witness :
  fs (snd (main 2 sample_world)) !! ["."; "README"] =
    Some (File "import org.apache.http.annotation.ThreadSafe;") ∧
  fs (snd (main 2 sample_world)) !! ["."; "src"; "B.java"] =
    Some (File ("import java.util.List;" +:+ eol)) ∧
  fst (main 2 sample_world) = Ret tt ∧
  tmps (snd (main 2 sample_world)) = ∅.
Proof.
  destruct (main 2 sample_world) as [r w'] eqn:Hrun. simpl.
  destruct (C6_other_files_untouched 2 ["."] ["."; "README"]
              "import org.apache.http.annotation.ThreadSafe;" sample_world r w' Hrun)
    as (Hreadme & Htmps & Hret); [reflexivity | left; by intros name [= <-] |].
  destruct (C6_other_files_untouched 2 ["."] ["."; "src"; "B.java"]
              ("import java.util.List;" +:+ eol) sample_world r w' Hrun)
    as (Hb & _ & _); [reflexivity | by right |].
  assert (r = Ret tt) as Hr
    by (apply Hret; [reflexivity | by eexists | apply sample_tree_depth]).
  split_and!; [exact Hreadme | exact Hb | exact Hr | exact (Htmps Hr)].
Defined.

(** C9, as stated, fails: the name below contains [.java], after a
    newline that the [.] of the pattern does not match, and the file is not
    handed to [process_source]. *)
Lemma C9_counterexample :
  let file := "a" +:+ eol +:+ ".java" in
  let w := World {[ ["."; file] := File "import org.apache.http.annotation.X;" ]} ∅ 0 [] in
  Str.contains ".java" file = true ∧
  java_pattern_match file = false ∧
  visit (process_dir 0) ["."] file w = (Ret tt, w).
Proof. vm_compute. by split_and!. Qed.

(** C9 (amended). The file pattern matches a name exactly when [.java]
    occurs in it with no newline before the occurrence, which for a name
    without a newline is to contain [.java]; a name that is not a directory
    is handed to [process_source] exactly when the pattern matches it, and
    nothing is done for it otherwise. [Foo.java.orig] and [x.javascript] are
    matched. *)
Theorem C9_file_pattern (rec : path → M unit) (dir : path) (file : string) (w : world) :
  dir_view (fs w !! os_path_join dir file) = None →
  (java_pattern_match file = true ↔
   ∃ pre post, file = pre +:+ ".java" +:+ post ∧ Str.no_newline pre = true) ∧
  (Str.no_newline file = true → java_pattern_match file = Str.contains ".java" file) ∧
  visit rec dir file w =
    (if java_pattern_match file
     then process_source (os_path_join dir file) w else (Ret tt, w)) ∧
  clock w < clock (snd (process_source (os_path_join dir file) w)) ∧
  java_pattern_match "Foo.java.orig" = true ∧
  java_pattern_match "x.javascript" = true.
Proof.
  intros Hfile. split_and!.
  - rewrite java_pattern_match_scan. apply contains_on_first_line_true.
  - intros Hnl. rewrite java_pattern_match_scan. by apply contains_no_newline.
  - by apply visit_file.
  - destruct (process_source (os_path_join dir file) w) as [r w'] eqn:Hrun.
    by apply process_source_spec in Hrun as (_ & ? & _).
  - reflexivity.
  - reflexivity.
Qed.

Lemma C9_file_pattern_witness :
  visit (process_dir 0) ["."] "A.java" sample_world =
  process_source ["."; "A.java"] sample_world.
Proof.
  destruct (C9_file_pattern (process_dir 0) ["."] "A.java" sample_world)
    as (_ & _ & Hvisit & _); [reflexivity |].
  exact Hvisit.
Defined.

(** C10, as stated, fails: the name below is a newline followed by [svn],
    the [.] of the pattern does not match the newline, and the walk enters
    the directory and rewrites a file in it. *)
Lemma C10_counterexample :
  let d := eol +:+ "svn" in
  let w := World (<[ ["."] := Dir [d] ]>
                 (<[ ["."; d] := Dir ["X.java"] ]>
                 (<[ ["."; d; "X.java"] :=
                       File "import org.apache.http.annotation.Immutable;" ]> ∅)))
             ∅ 0 [] in
  (∃ c rest, d = String c rest ∧ Str.startswith "svn" rest = true) ∧
  ignore_pattern_match d = false ∧
  fs (snd (main 2 w)) !! ["."; d; "X.java"] =
    Some (File "import net.jcip.annotations.Immutable;").
Proof.
  split; [by exists Str.newline, "svn" |]. vm_compute. by split.
Qed.

(** C10 (amended). The ignore pattern matches a name exactly when it starts
    with [target], [bin] or [classes], or when its first character is not a
    newline and is followed by [svn]; for a directory with such a name the
    loop does nothing, and it calls [process_dir] on any other directory.
    [binaries], [targets] and [Xsvn] are matched. *)
Theorem C10_ignore_pattern (rec : path → M unit) (dir : path) (file : string)
    (names : list string) (w : world) :
  fs w !! os_path_join dir file = Some (Dir names) →
  (ignore_pattern_match file = true ↔
   Str.startswith "target" file = true ∨
   Str.startswith "bin" file = true ∨
   Str.startswith "classes" file = true ∨
   ∃ c rest, file = String c rest ∧ c ≠ Str.newline ∧ Str.startswith "svn" rest = true) ∧
  visit rec dir file w =
    (if ignore_pattern_match file then (Ret tt, w) else rec (os_path_join dir file) w) ∧
  ignore_pattern_match "binaries" = true ∧
  ignore_pattern_match "targets" = true ∧
  ignore_pattern_match "Xsvn" = true.
Proof.
  intros Hdir. split_and!; [| by eapply visit_dir | reflexivity ..].
  rewrite ignore_pattern_match_cases, !orb_true_iff. split.
  - intros [[[Hsvn|?]|?]|?]; [| by auto ..].
    destruct file as [|c rest]; [done |].
    apply andb_true_iff in Hsvn as [Hc Hrest]. do 3 right. exists c, rest.
    split_and!; [done | | done]. intros ->. by rewrite Ascii.eqb_refl in Hc.
  - intros [?|[?|[?|(c & rest & -> & Hc & Hrest)]]]; [by auto .. |].
    do 3 left. apply Ascii.eqb_neq in Hc. by rewrite Hc, Hrest.
Qed.

Lemma C10_ignore_pattern_witness :
  visit (process_dir 1) ["."] "target" sample_world = (Ret tt, sample_world) ∧
  visit (process_dir 1) ["."] "src" sample_world = process_dir 1 ["."; "src"] sample_world.
Proof.
  destruct (C10_ignore_pattern (process_dir 1) ["."] "target" ["C.java"] sample_world)
    as (_ & Htarget & _); [reflexivity |].
  destruct (C10_ignore_pattern (process_dir 1) ["."] "src" ["B.java"] sample_world)
    as (_ & Hsrc & _); [reflexivity |].
  split; [exact Htarget | exact Hsrc].
Defined.

End WalkClaims.

(** * Further properties of the walk *)

Section Entries.

(** What [process_source] does to any one path of the tree, whatever calls
    fail: nothing, or it is the path it was given, a file with a matching
    line, and a file is there afterwards. *)
Lemma process_source_entry (f g : path) (w : world) :
  fs (snd (process_source f w)) !! g = fs w !! g ∨
  (f = g ∧ ∃ c c', fs w !! g = Some (File c) ∧ has_matching_line c = true ∧
                   fs (snd (process_source f w)) !! g = Some (File c')).
Proof.
  destruct (process_source_fs f w) as [->|(c & c' & Hc & Hm & ->)]; [by left |].
  destruct (decide (f = g)) as [->|Hne].
  - right. split; [done |]. exists c, c'. by rewrite lookup_insert_eq.
  - left. by apply lookup_insert_ne.
Qed.

(** When no failing [shutil.move] has started its copy, the file is
    rewritten as a whole. *)
Lemma process_source_entry_untorn (f g : path) (w : world) :
  torn w = ∅ →
  fs (snd (process_source f w)) !! g = fs w !! g ∨
  (f = g ∧ ∃ c, fs w !! g = Some (File c) ∧ has_matching_line c = true ∧
                fs (snd (process_source f w)) !! g = Some (File (rewrite_content c))).
Proof.
  intros Hnone.
  destruct (process_source_untorn f w Hnone) as [->|(c & Hc & Hm & ->)]; [by left |].
  destruct (decide (f = g)) as [->|Hne].
  - right. split; [done |]. exists c. by rewrite lookup_insert_eq.
  - left. by apply lookup_insert_ne.
Qed.

Lemma rewrite_entry_idempotent (e : option entry) :
  rewrite_entry (rewrite_entry e) = rewrite_entry e.
Proof.
  destruct e as [[c|names]|]; simpl; [| done | done].
  by rewrite rewrite_content_idempotent.
Qed.

(** An entry that is already rewritten is never changed again. *)
Lemma process_source_rewritten_entry (f g : path) (e : option entry) (w : world) :
  fs w !! g = rewrite_entry e →
  fs (snd (process_source f w)) !! g = rewrite_entry e.
Proof.
  intros Hg.
  destruct (process_source_entry f g w) as [->|(_ & c & c' & Hc & Hm & _)]; [done |].
  rewrite Hg in Hc. destruct e as [[c0|names]|]; simpl in Hc; [| done | done].
  injection Hc as <-. by rewrite rewrite_content_settled in Hm.
Qed.

Lemma process_source_entry_fault_free (f : path) (w : world) :
  faults w = [] →
  fst (process_source f w) = Ret tt ∧
  fs (snd (process_source f w)) !! f = rewrite_entry (fs w !! f).
Proof.
  intros Hnil. destruct (process_source f w) as [r w'] eqn:Hrun.
  apply process_source_spec in Hrun as (_ & _ & _ & Htot).
  destruct (Htot Hnil) as [-> Hfs]. simpl. split; [done |]. rewrite Hfs.
  destruct (fs w !! f) as [[c|names]|] eqn:Hf; simpl; [| by rewrite Hf ..].
  destruct (has_matching_line c) eqn:Hm.
  - apply lookup_insert_eq.
  - by rewrite Hf, rewrite_content_unchanged.
Qed.

Lemma walked_same_dirs (m m' : gmap path entry) (dir g : path) :
  same_dirs m m' → walked m dir g → walked m' dir g.
Proof.
  intros Hsame. induction 1 as [dir names file Hdir Hin Hfile Hj
                               |dir names file g Hdir Hin Hsub Hi _ IH].
  - eapply walked_here; [by rewrite Hsame | done | by rewrite Hsame | done].
  - eapply walked_below; [by rewrite Hsame | done | by rewrite Hsame | done | done].
Qed.

Lemma same_dirs_sym (m m' : gmap path entry) : same_dirs m m' → same_dirs m' m.
Proof. intros H g. by rewrite H. Qed.

(** The paths the walk reaches are among those of [dispatched_from]. *)
Lemma walked_dispatched (m : gmap path entry) (dir g : path) :
  walked m dir g → dispatched_from dir g.
Proof.
  induction 1 as [dir names file _ _ _ Hj|dir names file g _ _ _ Hi _ IH].
  - by apply dispatched_from_here.
  - by eapply dispatched_from_below.
Qed.

(** The induction of [process_dir_inv], with [process_source] only on the
    paths the walk reaches in a tree [m0] whose directories the property
    keeps. *)
Lemma process_dir_walk_inv (m0 : gmap path entry) (P : world → Prop) (fuel : nat) :
  (∀ w n, P w → P (set_clock n w)) →
  (∀ w, P w → same_dirs m0 (fs w)) →
  ∀ (dir : path) (w : world),
    (∀ f w, walked m0 dir f → P w → P (snd (process_source f w))) →
    P w → P (snd (process_dir fuel dir w)).
Proof.
  intros Hclock Hdirs. induction fuel as [|fuel IH]; intros dir w Hsrc Hw; [done |].
  simpl. unfold bind. rewrite os_listdir_run.
  destruct (fault_now w); [by apply Hclock |].
  destruct (dir_view (fs w !! dir)) as [names|] eqn:Hdir; [| by apply Hclock].
  rewrite (Hdirs w Hw) in Hdir.
  apply for_each_inv; [| by apply Hclock].
  intros file w1 Hin Hw1. unfold visit, bind, os_path_isdir.
  pose proof (Hdirs w1 Hw1 (os_path_join dir file)) as Hsame.
  destruct (fs w1 !! os_path_join dir file) as [[c|ns]|]; simpl in Hsame.
  - destruct (java_pattern_match file) eqn:Hj; [| done].
    apply Hsrc; [| done]. by eapply walked_here.
  - destruct (ignore_pattern_match file) eqn:Hi; [done |]. simpl.
    apply IH; [| done]. intros f w2 Hf. apply Hsrc.
    eapply walked_below; [done | done | | done | done]. rewrite <- Hsame. by eexists.
  - destruct (java_pattern_match file) eqn:Hj; [| done].
    apply Hsrc; [| done]. by eapply walked_here.
Qed.

End Entries.

Section Reached.

Lemma for_each_establish {A} (I Q : world → Prop) (body : A → M unit)
    (xs : list A) (x0 : A) (w : world) :
  x0 ∈ xs →
  (∀ x w, x ∈ xs → I w → I (snd (body x w)) ∧ fst (body x w) = Ret tt) →
  (∀ x w, x ∈ xs → Q w → Q (snd (body x w))) →
  (∀ w, I w → Q (snd (body x0 w))) →
  I w → Q (snd (for_each xs body w)).
Proof.
  intros Hin HI HQ Hx0. revert w Hin.
  induction xs as [|x xs IH]; intros w Hin Hw; [by apply elem_of_nil in Hin |].
  simpl. unfold bind.
  destruct (HI x w (list_elem_of_here _ _) Hw) as [Hw1 Hret].
  assert (∀ y u, y ∈ xs → Q u → Q (snd (body y u))) as HQ'
    by (intros y u Hy; apply HQ; by apply list_elem_of_further).
  apply elem_of_cons in Hin as [->|Hin].
  - specialize (Hx0 w Hw). destruct (body x w) as [[[]|e|] w1]; simpl in *; [| done ..].
    by apply for_each_inv.
  - destruct (body x w) as [[[]|e|] w1]; simpl in *; [| done ..].
    apply IH; [| | done | done]; [| done].
    intros y u Hy. apply HI. by apply list_elem_of_further.
Qed.

Variables (m0 : gmap path entry) (g : path).

Lemma walk_inv_clock (w : world) (n : nat) :
  walk_inv m0 g w → walk_inv m0 g (set_clock n w).
Proof. done. Qed.

Lemma walk_inv_process_source (f : path) (w : world) :
  walk_inv m0 g w → walk_inv m0 g (snd (process_source f w)).
Proof.
  intros (Hnil & Hsame & Hg). split_and!.
  - by rewrite process_source_faults.
  - intros p. by rewrite process_source_same_dirs.
  - destruct Hg as [Hg|Hg]; [| right; by apply process_source_rewritten_entry].
    destruct (decide (f = g)) as [->|Hne]; [| left; by rewrite process_source_other].
    right. rewrite <- Hg. by apply process_source_entry_fault_free.
Qed.

Lemma walk_inv_process_dir (fuel : nat) (dir : path) (w : world) :
  walk_inv m0 g w → walk_inv m0 g (snd (process_dir fuel dir w)).
Proof.
  apply process_dir_inv; [apply walk_inv_clock |].
  intros f u _. apply walk_inv_process_source.
Qed.

Lemma walk_done_process_dir (fuel : nat) (dir : path) (w : world) :
  walk_done m0 g w → walk_done m0 g (snd (process_dir fuel dir w)).
Proof.
  apply (process_dir_inv (walk_done m0 g)); [done |].
  intros f u _. apply process_source_rewritten_entry.
Qed.

Lemma walk_done_visit (fuel : nat) (dir : path) (file : string) (w : world) :
  walk_done m0 g w → walk_done m0 g (snd (visit (process_dir fuel) dir file w)).
Proof.
  intros Hw. unfold visit, bind, os_path_isdir.
  destruct (fs w !! os_path_join dir file) as [[c|ns]|].
  - destruct (java_pattern_match file); [| done].
    by apply process_source_rewritten_entry.
  - destruct (ignore_pattern_match file); [done |]. by apply walk_done_process_dir.
  - destruct (java_pattern_match file); [| done].
    by apply process_source_rewritten_entry.
Qed.

(** In a walk where no call fails, every step of the loop keeps the
    invariant and returns. *)
Lemma walk_inv_visit (fuel : nat) (dir : path) (names : list string) (file : string)
    (w : world) :
  depth_le m0 (S fuel) dir →
  dir_view (m0 !! dir) = Some names → file ∈ names →
  walk_inv m0 g w →
  walk_inv m0 g (snd (visit (process_dir fuel) dir file w)) ∧
  fst (visit (process_dir fuel) dir file w) = Ret tt.
Proof.
  intros Hdepth Hdir Hin Hw. pose proof Hw as (Hnil & Hsame & _).
  inversion Hdepth as [n dir' Hsub]; subst.
  unfold visit, bind, os_path_isdir.
  destruct (fs w !! os_path_join dir file) as [[c|ns]|] eqn:Hentry.
  - destruct (java_pattern_match file); [| done].
    split; [by apply walk_inv_process_source |].
    by apply process_source_entry_fault_free.
  - destruct (ignore_pattern_match file) eqn:Hi; [done |]. simpl.
    split; [by apply walk_inv_process_dir |].
    apply process_dir_completes; [| done | rewrite Hentry; by eexists].
    apply (depth_le_same_dirs m0); [done |].
    apply (Hsub names); [done | done | done |].
    rewrite <- Hsame, Hentry. by eexists.
  - destruct (java_pattern_match file); [| done].
    split; [by apply walk_inv_process_source |].
    by apply process_source_entry_fault_free.
Qed.

End Reached.

Section Rewritten.

Lemma walk_reaches (m0 : gmap path entry) (dir g : path) :
  walked m0 dir g →
  ∀ (fuel : nat) (w : world),
    depth_le m0 fuel dir → walk_inv m0 g w →
    walk_done m0 g (snd (process_dir fuel dir w)).
Proof.
  induction 1 as [dir names file Hdir Hin Hfile Hj
                 |dir names file g' Hdir Hin Hsub Hi Hwalk IH];
    intros fuel w Hdepth Hw; pose proof Hw as (Hnil & Hsame & _);
    pose proof Hdepth as Hdepth'; inversion Hdepth' as [k dir' Hbelow]; subst;
    simpl; unfold bind; rewrite os_listdir_run;
    rewrite (fault_now_nil w Hnil), Hsame, Hdir.
  - apply (for_each_establish (walk_inv m0 (os_path_join dir file))
             (walk_done m0 (os_path_join dir file)) _ _ file); [done | | | | done].
    + intros x u Hx. by apply (walk_inv_visit _ _ _ _ names).
    + intros x u _. apply walk_done_visit.
    + intros u (Hnil' & Hsame' & Hg).
      rewrite visit_file, Hj by by rewrite Hsame'.
      unfold walk_done.
      rewrite (proj2 (process_source_entry_fault_free _ _ Hnil')).
      destruct Hg as [->| ->]; [done | apply rewrite_entry_idempotent].
  - apply (for_each_establish (walk_inv m0 g') (walk_done m0 g') _ _ file);
      [done | | | | done].
    + intros x u Hx. by apply (walk_inv_visit _ _ _ _ names).
    + intros x u _. apply walk_done_visit.
    + intros u Hu. pose proof Hu as (_ & Hsame' & _).
      destruct Hsub as [ns Hns]. rewrite <- Hsame' in Hns.
      destruct (fs u !! os_path_join dir file) as [[c|ns']|] eqn:Hentry; [done | | done].
      rewrite (visit_dir _ _ _ ns'), Hi by done.
      apply IH; [| done]. apply (Hbelow names); [done | done | done |].
      rewrite <- Hsame', Hentry. by eexists.
Qed.

End Rewritten.

Section WholeWalk.

Lemma walked_is_dir (m : gmap path entry) (dir g : path) :
  walked m dir g → is_Some (dir_view (m !! dir)).
Proof. destruct 1; by eexists. Qed.

Lemma walk_inv_start (w : world) (g : path) : faults w = [] → walk_inv (fs w) g w.
Proof. intros Hnil. split_and!; [done | done | by left]. Qed.

Lemma walk_reaches_entry (fuel : nat) (dir g : path) (w : world) :
  faults w = [] → depth_le (fs w) fuel dir → walked (fs w) dir g →
  fs (snd (process_dir fuel dir w)) !! g = rewrite_entry (fs w !! g).
Proof.
  intros Hnil Hdepth Hwalk.
  by apply (walk_reaches (fs w) dir g Hwalk fuel w Hdepth), walk_inv_start.
Qed.

(** X1. In a walk where no call fails, with fuel for the depth of the tree,
    every path the walk reaches ends up rewritten: a regular file there holds
    its rewritten lines (itself, when no line matches), and the walk
    returns. *)
Theorem walk_rewrites_reached_files (fuel : nat) (dir g : path) (w : world) :
  faults w = [] →
  depth_le (fs w) fuel dir →
  walked (fs w) dir g →
  fst (process_dir fuel dir w) = Ret tt ∧
  fs (snd (process_dir fuel dir w)) !! g = rewrite_entry (fs w !! g).
Proof.
  intros Hnil Hdepth Hwalk. split.
  - apply process_dir_completes; [done | done | by eapply walked_is_dir].
  - by apply walk_reaches_entry.
Qed.

Lemma sample_walked_A : walked sample_tree ["."] ["."; "A.java"].
Proof.
  apply (walked_here sample_tree ["."] ["src"; "target"; "A.java"; "README"] "A.java");
    [reflexivity | set_solver | reflexivity | reflexivity].
Qed.

Lemma walk_rewrites_reached_files_witness :
  fst (main 2 sample_world) = Ret tt ∧
  fs (snd (main 2 sample_world)) !! ["."; "A.java"] =
    Some (File (rewrite_content
                  ("package x;" +:+ eol +:+
                   "import org.apache.http.annotation.ThreadSafe;" +:+ eol +:+
                   "class A {}"))).
Proof.
  apply (walk_rewrites_reached_files 2 ["."] ["."; "A.java"] sample_world);
    [reflexivity | apply sample_tree_depth | apply sample_walked_A].
Defined.

(** X2. Whatever calls fail and however the walk ends, it changes no path
    but those it reaches: a file is changed only if it is listed in a
    directory reached from the root through listed directories that the
    ignore pattern does not match, and its name matches the file pattern. *)
Theorem walk_changes_only_reached (fuel : nat) (dir g : path) (w : world) :
  ¬ walked (fs w) dir g →
  fs (snd (process_dir fuel dir w)) !! g = fs w !! g.
Proof.
  intros Hg.
  apply (process_dir_walk_inv (fs w)
           (λ w', same_dirs (fs w) (fs w') ∧ fs w' !! g = fs w !! g) fuel);
    [done | by intros u [? _] | | done].
  intros f u Hf [Hsame Hu]. split.
  - intros p. by rewrite process_source_same_dirs.
  - rewrite process_source_other; [done |]. by intros ->.
Qed.

Lemma walk_changes_only_reached_witness :
  fs (snd (main 2 (World (<[ ["."; "docs"; "Y.java"] :=
                               File "import org.apache.http.annotation.Immutable;" ]>
                           dangling_tree) ∅ 0 []))) !! ["."; "docs"; "Y.java"] =
  Some (File "import org.apache.http.annotation.Immutable;").
Proof.
  apply (walk_changes_only_reached 2 ["."] ["."; "docs"; "Y.java"]).
  intros Hwalk.
  inversion Hwalk as [|dir names file g Hdir Hin Hsub Hi Hbelow]; subst.
  vm_compute in Hdir. injection Hdir as <-.
  apply list_elem_of_In in Hin. simpl in Hin.
  destruct Hin as [<-|[<-|[<-|[]]]];
    try (vm_compute in Hsub; by destruct Hsub).
  inversion Hbelow as [? names' ? Hdir' Hin'|? names' ? ? Hdir' Hin']; subst;
    vm_compute in Hdir'; injection Hdir' as <-; by apply elem_of_nil in Hin'.
Defined.

(** X3. Running the walk a second time changes nothing: where no call fails,
    the tree after two walks is the tree after one. *)
Theorem walk_twice_as_once (fuel : nat) (dir : path) (w : world) :
  faults w = [] →
  depth_le (fs w) fuel dir →
  is_Some (dir_view (fs w !! dir)) →
  fst (process_dir fuel dir w) = Ret tt ∧
  fst (process_dir fuel dir (snd (process_dir fuel dir w))) = Ret tt ∧
  fs (snd (process_dir fuel dir (snd (process_dir fuel dir w)))) =
    fs (snd (process_dir fuel dir w)).
Proof.
  intros Hnil Hdepth Hdir.
  pose proof (process_dir_same_dirs fuel dir w) as Hsame.
  pose proof (process_dir_faults fuel dir w) as Hfl.
  split; [by apply process_dir_completes |].
  assert (∀ f, walked (fs w) dir f →
               fs (snd (process_dir fuel dir w)) !! f = rewrite_entry (fs w !! f)) as Hdone
    by (intros f Hf; by apply walk_reaches_entry).
  set (w1 := snd (process_dir fuel dir w)) in *.
  split.
  - apply process_dir_completes.
    + by apply (depth_le_same_dirs (fs w)).
    + congruence.
    + by rewrite Hsame.
  - apply (process_dir_walk_inv (fs w) (λ w', fs w' = fs w1) fuel);
      [done | by intros u -> | | done].
    intros f u Hf Hu. apply map_eq. intros p. rewrite <- Hu.
    destruct (process_source_entry f p u) as [->|(<- & c & c' & Hc & Hm & _)]; [done |].
    rewrite Hu, (Hdone f Hf) in Hc.
    destruct (fs w !! f) as [[c0|ns]|]; simpl in Hc; [| done | done].
    injection Hc as <-. by rewrite rewrite_content_settled in Hm.
Qed.

Lemma walk_twice_as_once_witness :
  fs (snd (main 2 (snd (main 2 sample_world)))) = fs (snd (main 2 sample_world)).
Proof.
  apply (walk_twice_as_once 2 ["."] sample_world);
    [reflexivity | apply sample_tree_depth | by eexists].
Defined.

(** X4. In a walk in which no failing [shutil.move] has started its copy
    (each one that fails does so as a rename, without effect), whatever
    calls fail and however the walk ends, a regular file holds afterwards
    either the content it had or its rewritten lines, all of them. *)
Theorem walk_original_or_rewritten (fuel : nat) (dir g : path) (c : string) (w : world) :
  torn w = ∅ →
  fs w !! g = Some (File c) →
  fs (snd (process_dir fuel dir w)) !! g = Some (File c) ∨
  fs (snd (process_dir fuel dir w)) !! g = Some (File (rewrite_content c)).
Proof.
  intros Hnone Hg.
  apply (process_dir_inv
           (λ w', torn w' = ∅ ∧
                  (fs w' !! g = Some (File c) ∨
                   fs w' !! g = Some (File (rewrite_content c)))));
    [done | | by split; [| left]].
  intros f u _ [Hnone' Hu]. split; [by rewrite keeps_torn_process_source |].
  destruct Hu as [Hu|Hu].
  - destruct (process_source_entry_untorn f g u Hnone')
      as [->|(_ & c' & Hc' & _ & ->)]; [by left |].
    right. congruence.
  - right. by apply (process_source_rewritten_entry f g (Some (File c))).
Qed.

Lemma walk_original_or_rewritten_witness :
  fs (snd (main 1 failing_open_world)) !! ["."; "A.java"] =
    Some (File "import org.apache.http.annotation.ThreadSafe;") ∨
  fs (snd (main 1 failing_open_world)) !! ["."; "A.java"] =
    Some (File (rewrite_content "import org.apache.http.annotation.ThreadSafe;")).
Proof.
  apply (walk_original_or_rewritten 1 ["."] ["."; "A.java"]); reflexivity.
Defined.

(** X5. Whatever calls fail, the tree has the same paths after the walk as
    before it, and the same directories with the same listings. *)
Theorem walk_keeps_structure (fuel : nat) (dir : path) (w : world) :
  dom (fs (snd (process_dir fuel dir w))) = dom (fs w) ∧
  same_dirs (fs w) (fs (snd (process_dir fuel dir w))).
Proof.
  split; [| apply process_dir_same_dirs].
  apply (process_dir_inv (λ w', dom (fs w') = dom (fs w))); [done | | done].
  intros f u _ <-. apply set_eq. intros p. rewrite !elem_of_dom.
  destruct (process_source_entry f p u) as [->|(_ & c & c' & -> & _ & ->)]; [done |].
  split; eauto.
Qed.

End WholeWalk.

Section Scratch.

Lemma for_each_post {A} (P : world → Prop) (R : outcome unit → world → Prop)
    (body : A → M unit) (xs : list A) :
  (∀ w, P w → R (Ret tt) w) →
  (∀ x w r w', P w → body x w = (r, w') →
               match r with Ret _ => P w' | _ => R r w' end) →
  ∀ w r w', P w → for_each xs body w = (r, w') → R r w'.
Proof.
  intros Hret Hbody. induction xs as [|x xs IH]; intros w r w' Hw Hrun.
  - injection Hrun as <- <-. by apply Hret.
  - simpl in Hrun. unfold bind in Hrun.
    destruct (body x w) as [r1 w1] eqn:Hx. specialize (Hbody x w r1 w1 Hw Hx).
    destruct r1 as [[]|e|]; [by apply (IH w1) | by injection Hrun as <- <- ..].
Qed.

(** X6. A walk leaves at most one scratch file, and touches no other: the
    scratch store is as it was after a walk that returns, runs out of fuel,
    or is aborted by [os.listdir] or [mkstemp]; when the [os.remove] of the
    except clause aborts it, the scratch store is the one before with one
    file added, the scratch file of the file being processed, under a name
    that was not in use. *)
Theorem walk_scratch_files (fuel : nat) (dir : path) (w : world)
    (r : outcome unit) (w' : world) :
  process_dir fuel dir w = (r, w') →
  (r ≠ Raise (OSError AtCleanup) → tmps w' = tmps w) ∧
  (r = Raise (OSError AtCleanup) →
   ∃ t acc, tmps w !! t = None ∧ tmps w' = <[t := acc]> (tmps w)).
Proof.
  revert dir w r w'. induction fuel as [|fuel IH]; intros dir w r w' Hrun.
  { by injection Hrun as <- <-. }
  simpl in Hrun. unfold bind in Hrun. rewrite os_listdir_run in Hrun.
  destruct (fault_now w); [by injection Hrun as <- <- |].
  destruct (dir_view (fs w !! dir)) as [names|]; [| by injection Hrun as <- <-].
  simpl in Hrun.
  apply (for_each_post
           (λ u, tmps u = tmps w)
           (λ r u, (r ≠ Raise (OSError AtCleanup) → tmps u = tmps w) ∧
                   (r = Raise (OSError AtCleanup) →
                    ∃ t acc, tmps w !! t = None ∧ tmps u = <[t := acc]> (tmps w))))
    in Hrun; [done | done | | done].
  intros file u r1 u1 Hu. unfold visit, bind, os_path_isdir.
  assert (∀ f, process_source f u = (r1, u1) →
               match r1 with
               | Ret _ => tmps u1 = tmps w
               | _ => (r1 ≠ Raise (OSError AtCleanup) → tmps u1 = tmps w) ∧
                      (r1 = Raise (OSError AtCleanup) →
                       ∃ t acc, tmps w !! t = None ∧ tmps u1 = <[t := acc]> (tmps w))
               end) as Hsrc.
  { intros f Hf. apply process_source_spec in Hf as (_ & _ & Hr & _).
    destruct r1 as [[]|e|]; [| | done].
    - destruct Hr as [-> _]. done.
    - destruct Hr as [_ [[-> ->]|[-> (t & acc & Ht & ->)]]]; [done |].
      split; [done |]. intros _. rewrite <- Hu. eauto. }
  destruct (fs u !! os_path_join dir file) as [[c|ns]|].
  - destruct (java_pattern_match file); [apply Hsrc |]. by intros [= <- <-].
  - destruct (ignore_pattern_match file); simpl; [by intros [= <- <-] |].
    intros Hsub. apply IH in Hsub. rewrite Hu in Hsub.
    destruct r1 as [[]|e|]; [| done | done].
    by apply Hsub.
  - destruct (java_pattern_match file); [apply Hsrc |]. by intros [= <- <-].
Qed.

Lemma walk_scratch_files_witness :
  fst (main 1 failing_cleanup_world) = Raise (OSError AtCleanup) ∧
  ∃ t acc, tmps (snd (main 1 failing_cleanup_world)) = <[t := acc]> ∅.
Proof.
  split; [vm_compute; reflexivity |].
  destruct (walk_scratch_files 1 ["."] failing_cleanup_world
              (fst (main 1 failing_cleanup_world)) (snd (main 1 failing_cleanup_world)))
    as [_ Hleft]; [unfold main; apply surjective_pairing |].
  destruct Hleft as (t & acc & _ & Htm); [vm_compute; reflexivity |].
  by exists t, acc.
Defined.

(** X7. A listed name that cannot be opened as a regular file, a dangling
    link or a directory, is passed over: [process_source] leaves the tree as
    it was whatever calls fail, and where none fails it returns normally and
    leaves no scratch file. *)
Theorem process_source_not_a_file (f : path) (w : world) :
  (∀ c, fs w !! f ≠ Some (File c)) →
  fs (snd (process_source f w)) = fs w ∧
  (faults w = [] →
   fst (process_source f w) = Ret tt ∧ tmps (snd (process_source f w)) = tmps w).
Proof.
  intros Hf. destruct (process_source f w) as [r w'] eqn:Hrun.
  destruct (process_source_spec _ _ _ _ Hrun) as (_ & _ & Hr & Htot). simpl. split.
  - pose proof (process_source_fs f w) as Hfs. rewrite Hrun in Hfs. simpl in Hfs.
    destruct Hfs as [-> | (c & c' & Hc & _)]; [done | by destruct (Hf c)].
  - intros Hnil. destruct (Htot Hnil) as [-> _]. by destruct Hr.
Qed.

Lemma process_source_not_a_file_witness :
  fs (snd (process_source ["."; "gone.java"] (World dangling_tree ∅ 0 []))) =
    dangling_tree ∧
  fst (process_source ["."; "gone.java"] (World dangling_tree ∅ 0 [])) = Ret tt.
Proof.
  destruct (process_source_not_a_file ["."; "gone.java"] (World dangling_tree ∅ 0 []))
    as [Hfs Hret]; [intros c; discriminate |].
  split; [exact Hfs | by apply Hret].
Defined.

End Scratch.

Section Composition.

Lemma readlines_nil (s : string) : Str.readlines s = [] → s = EmptyString.
Proof. intros H. by rewrite <- (join_readlines s), H. Qed.

Lemma readlines_app (a b : string) :
  Str.readlines ((a +:+ EOL) +:+ b) = Str.readlines (a +:+ EOL) ++ Str.readlines b.
Proof.
  induction a as [|c a IH]; [reflexivity |].
  rewrite !append_cons. simpl. rewrite IH.
  destruct (Ascii.eqb c Str.newline); [done |].
  destruct (Str.readlines (a +:+ EOL)) as [|l ls] eqn:Hl; [| done].
  apply readlines_nil in Hl. by destruct a.
Qed.

Lemma join_lines_app (xs ys : list string) :
  Str.join_lines (xs ++ ys) = Str.join_lines xs +:+ Str.join_lines ys.
Proof.
  induction xs as [|x xs IH]; [done |]. simpl. by rewrite IH, append_assoc.
Qed.

(** X8. Lines are rewritten one by one: what the loop writes for a text
    cut at the end of a line is what it writes for the first part, followed
    by what it writes for the second, and one of the two has a matching line
    exactly when the whole has. *)
Theorem rewrite_content_app (a b : string) :
  rewrite_content ((a +:+ EOL) +:+ b) =
    rewrite_content (a +:+ EOL) +:+ rewrite_content b ∧
  has_matching_line ((a +:+ EOL) +:+ b) =
    has_matching_line (a +:+ EOL) || has_matching_line b.
Proof.
  unfold rewrite_content, has_matching_line. rewrite readlines_app. split.
  - by rewrite map_app, join_lines_app.
  - apply existsb_app.
Qed.

Lemma replace_from_length (old new s : string) (k : nat) :
  String.length new ≤ String.length old → k ≤ String.length s →
  String.length (Str.replace_from k old new s) + k ≤ String.length s.
Proof.
  intros Hlen. revert k. induction s as [|c s IH]; intros k Hk.
  - simpl in *. lia.
  - cbn [Str.replace_from]. destruct k as [|k].
    + destruct (Str.startswith old (String c s)) eqn:Hs.
      * apply startswith_length in Hs. simpl in Hs.
        rewrite append_length.
        specialize (IH (String.length old - 1)). simpl. lia.
      * specialize (IH 0). simpl in *. lia.
    + specialize (IH k). simpl in *. lia.
Qed.

Lemma rewrite_line_length (l : string) :
  String.length (rewrite_line l) ≤ String.length l.
Proof.
  unfold rewrite_line. destruct (annot_pattern_match l); [| done].
  rewrite replace_old_prefix.
  pose proof (replace_from_length old_prefix new_prefix l 0) as H.
  assert (String.length new_prefix ≤ String.length old_prefix) by (vm_compute; lia).
  lia.
Qed.

Lemma rewrite_lines_length (ls : list string) :
  String.length (Str.join_lines (map rewrite_line ls)) ≤ String.length (Str.join_lines ls) ∧
  (existsb annot_pattern_match ls = true →
   String.length (Str.join_lines (map rewrite_line ls)) < String.length (Str.join_lines ls)).
Proof.
  induction ls as [|l ls [IHle IHlt]]; [done |].
  simpl. rewrite !append_length. pose proof (rewrite_line_length l) as Hl.
  split; [lia |]. intros [Hm|Hm]%orb_true_iff; [| specialize (IHlt Hm); lia].
  assert (String.length (rewrite_line l) < String.length l); [| lia].
  pose proof Hm as Hm'. rewrite annot_pattern_match_startswith in Hm'.
  apply startswith_true in Hm' as [rest ->].
  rewrite rewrite_line_match, replace_old_prefix, !append_length.
  pose proof (replace_from_length old_prefix new_prefix rest 0) as H.
  assert (String.length new_prefix < String.length old_prefix) by (vm_compute; lia).
  assert (String.length new_prefix ≤ String.length old_prefix) by lia.
  lia.
Qed.

(** X9. Rewriting never makes a file longer: the new prefix is shorter than
    the old one, so the rewritten text is at most as long as the text, and
    shorter as soon as a line matches. *)
Theorem rewrite_content_length (c : string) :
  String.length (rewrite_content c) ≤ String.length c ∧
  (has_matching_line c = true → String.length (rewrite_content c) < String.length c).
Proof.
  pose proof (rewrite_lines_length (Str.readlines c)) as H.
  by rewrite join_readlines in H.
Qed.

End Composition.

Section OneFile.

(** X10. [process_source] touches nothing but the file it is given and its
    own scratch file: whatever calls fail, every other path of the tree and
    every scratch file that was there before are as they were. *)
Theorem process_source_touches_one_file (f g : path) (t : nat) (x : string) (w : world) :
  f ≠ g →
  tmps w !! t = Some x →
  fs (snd (process_source f w)) !! g = fs w !! g ∧
  tmps (snd (process_source f w)) !! t = Some x.
Proof.
  intros Hne Ht. split; [by apply process_source_other |].
  destruct (process_source f w) as [r w'] eqn:Hrun.
  apply process_source_spec in Hrun as (_ & _ & Hr & _). simpl.
  destruct r as [[]|e|]; [| | done].
  - destruct Hr as [-> _]. done.
  - destruct Hr as [_ [[_ ->]|[_ (t' & acc & Hfresh & ->)]]]; [done |].
    rewrite lookup_insert_ne; [done |]. intros ->. congruence.
Qed.

Lemma process_source_touches_one_file_witness :
  let w := World two_files {[ 0 := "kept" ]} 0 [3; 5] in
  fs (snd (process_source ["."; "A.java"] w)) !! ["."; "B.java"] =
    Some (File "import org.apache.http.annotation.Immutable;") ∧
  tmps (snd (process_source ["."; "A.java"] w)) !! 0 = Some "kept".
Proof.
  apply (process_source_touches_one_file ["."; "A.java"] ["."; "B.java"] 0 "kept"
           (World two_files {[ 0 := "kept" ]} 0 [3; 5])); [discriminate | reflexivity].
Defined.

End OneFile.
